(** * Copy-on-write views of AnnData containers: [anndata/_core/views.py]

    A shallow embedding of the view machinery of anndata:
    - index composition ([_resolve_idx] and friends), over Python slices,
      ranges and one-dimensional numpy index arrays;
    - the mutation interceptor [_SetItemMixin.__setitem__], the scoped
      materialization [_SetItemMixin._update] and the view variants, over
      an explicit store of AnnData objects and storage cells;
    - the construction registry [as_view];
    - numpy's array finalization hook [ArrayView.__array_finalize__]. *)

From Stdlib Require Import ZArith Lia Bool Sorted.
From stdpp Require Import base option list strings.

(** ** Python exceptions and fallible results *)

Inductive exn :=
| ValueError
| IndexError
| KeyError
| AttributeError
| TypeError
| NotImplementedError (msg : string).

Inductive result (A : Type) :=
| Ok (a : A)
| Raise (e : exn).
Arguments Ok {A} a.
Arguments Raise {A} e.

Definition result_bind {A B} (f : A → result B) (r : result A) : result B :=
  match r with
  | Ok a => f a
  | Raise e => Raise e
  end.

#[global] Instance result_mbind : MBind result := @result_bind.
#[global] Instance result_mret : MRet result := @Ok.
#[global] Instance result_fmap : FMap result :=
  λ A B f r, match r with Ok a => Ok (f a) | Raise e => Raise e end.

(** [[f(x) for x in l]] where [f] may raise: the first exception wins. *)
Fixpoint traverse {A B} (f : A → result B) (l : list A) : result (list B) :=
  match l with
  | [] => Ok []
  | x :: l' => y ← f x; ys ← traverse f l'; Ok (y :: ys)
  end.

(** ** Index composition *)

Module Idx.
Local Open Scope Z_scope.

(** A Python [slice] object: each of start, stop, step may be [None]. *)
Record pyslice := Slice {
  sl_start : option Z;
  sl_stop : option Z;
  sl_step : option Z }.

(** A Python [range] object. *)
Record pyrange := Range {
  r_start : Z;
  r_stop : Z;
  r_step : Z }.

(** One bound of [slice.indices]: negative values count from the end and
    every value is clamped to [lower .. upper]. *)
Definition clamp_bound (v len lower upper : Z) : Z :=
  if v <? 0 then Z.max (v + len) lower else Z.min v upper.

(** The normalization of a slice against a length that is not negative
    ([_PySlice_GetLongIndices]): the normalized (start, stop, step), here
    packed as the range it denotes.  A zero step raises [ValueError]. *)
Definition adjust_indices (s : pyslice) (len : Z) : result pyrange :=
  let step := default 1 (sl_step s) in
  if step =? 0 then Raise ValueError
  else
    let lower := if step <? 0 then -1 else 0 in
    let upper := if step <? 0 then len - 1 else len in
    let start := match sl_start s with
                 | None => if step <? 0 then upper else lower
                 | Some v => clamp_bound v len lower upper
                 end in
    let stop := match sl_stop s with
                | None => if step <? 0 then lower else upper
                | Some v => clamp_bound v len lower upper
                end in
    Ok (Range start stop step).

(** [slice.indices(len)]: a negative length raises [ValueError], before
    the step is looked at; otherwise the slice is normalized. *)
Definition indices (s : pyslice) (len : Z) : result pyrange :=
  if len <? 0 then Raise ValueError else adjust_indices s len.

(** [len(range(start, stop, step))]. *)
Definition range_len (r : pyrange) : Z :=
  if 0 <? r_step r then
    if r_start r <? r_stop r
    then (r_stop r - r_start r - 1) / r_step r + 1 else 0
  else
    if r_stop r <? r_start r
    then (r_start r - r_stop r - 1) / (- r_step r) + 1 else 0.

(** The [i]-th element of a range, without bounds check. *)
Definition range_item (r : pyrange) (i : Z) : Z := r_start r + i * r_step r.

(** [list(r)], which is also [np.arange(r.start, r.stop, r.step)]. *)
Definition range_elems (r : pyrange) : list Z :=
  map (λ i : nat, range_item r (Z.of_nat i)) (seq 0 (Z.to_nat (range_len r))).

(** [r[s]] for a slice [s]: again a range. *)
Definition range_getslice (r : pyrange) (s : pyslice) : result pyrange :=
  n ← indices s (range_len r);
  Ok (Range (range_item r (r_start n)) (range_item r (r_stop n))
            (r_step r * r_step n)).

(** [_resolve_idx_slice_slice(old, new, l)] *)
Definition _resolve_idx_slice_slice (old new : pyslice) (l : Z) : result pyslice :=
  r0 ← indices old l;
  r ← range_getslice r0 new;
  let start := r_start r in
  let stop := r_stop r in
  let step := r_step r in
  let stop' :=
    if range_len r =? 0 then Some start
    else if stop <? 0 then None
    else Some stop in
  Ok (Slice (Some start) stop' (Some step)).

(** An index over one axis: what the dispatch of [_resolve_idx]
    distinguishes. *)
Inductive index :=
| ISlice (s : pyslice)
| IBool (mask : list bool)
| IArr (a : list Z)
| IInt (k : Z).

(** The outcome of indexing a one-dimensional sequence: a scalar for an
    integer index, a sequence otherwise. *)
Inductive sel (A : Type) :=
| Scalar (x : A)
| Seq (l : list A).
Arguments Scalar {A} x.
Arguments Seq {A} l.

(** The elements an outcome selects along the axis.  A scalar selects one
    position: AnnData keeps the axis, with length one. *)
Definition elems {A} (s : sel A) : list A :=
  match s with
  | Scalar x => [x]
  | Seq l => l
  end.

Definition len {A} (l : list A) : Z := Z.of_nat (length l).

(** [base[k]] for an in-range, non-negative position. *)
Definition item {A} (base : list A) (k : Z) : result A :=
  if (0 <=? k) && (k <? len base)
  then match base !! Z.to_nat k with
       | Some x => Ok x
       | None => Raise IndexError
       end
  else Raise IndexError.

(** [base[k]] for an integer [k]: negative values count from the end. *)
Definition int_item {A} (base : list A) (k : Z) : result A :=
  item base (if k <? 0 then k + len base else k).

(** [base[mask]]: the entries where the mask is true. *)
Fixpoint mask_filter {A} (mask : list bool) (base : list A) : list A :=
  match mask, base with
  | b :: mask', x :: base' =>
      if b then x :: mask_filter mask' base' else mask_filter mask' base'
  | _, _ => []
  end.

(** [base[i]] for a one-dimensional [base]. *)
Definition getitem {A} (base : list A) (i : index) : result (sel A) :=
  match i with
  | ISlice s =>
      r ← indices s (len base);
      l ← traverse (item base) (range_elems r);
      Ok (Seq l)
  | IBool mask =>
      if decide (length mask = length base)
      then Ok (Seq (mask_filter mask base))
      else Raise IndexError
  | IArr a => l ← traverse (int_item base) a; Ok (Seq l)
  | IInt k => x ← int_item base k; Ok (Scalar x)
  end.

(** An integer array indexed by [new] is again an index. *)
Definition as_index (s : sel Z) : index :=
  match s with
  | Scalar k => IInt k
  | Seq a => IArr a
  end.

(** [np.where(mask)[0]]: the sorted positions where the mask is true. *)
Fixpoint where_from (i : Z) (mask : list bool) : list Z :=
  match mask with
  | [] => []
  | b :: mask' =>
      if b then i :: where_from (i + 1) mask' else where_from (i + 1) mask'
  end.

Definition np_where (mask : list bool) : list Z := where_from 0 mask.

(** [_resolve_idx(old, new, l)], with the single dispatch on the type of
    [old] written as a match:
    - [_resolve_idx_ndarray] for arrays (boolean ones go through
      [np.where] first),
    - [_resolve_idx_scalar] for integers,
    - [_resolve_idx_slice] for slices. *)
Definition _resolve_idx (old new : index) (l : Z) : result index :=
  match old with
  | IBool mask => as_index <$> getitem (np_where mask) new
  | IArr a => as_index <$> getitem a new
  | IInt k => as_index <$> getitem [k] new
  | ISlice s =>
      match new with
      | ISlice n => ISlice <$> _resolve_idx_slice_slice s n l
      | _ => r ← indices s l; as_index <$> getitem (range_elems r) new
      end
  end.

(** [_resolve_idxs(old, new, adata)]: both axes, with [adata.shape]. *)
Definition _resolve_idxs (old new : index * index) (shape : Z * Z)
  : result (index * index) :=
  i0 ← _resolve_idx (fst old) (fst new) (fst shape);
  i1 ← _resolve_idx (snd old) (snd new) (snd shape);
  Ok (i0, i1).

(** *** Auxiliary notions for the statements *)

(** [n] is the number of elements of [range(a, b, s)]. *)
Definition len_spec (a b s n : Z) : Prop :=
  (n = 0 ∧ (0 < s → b <= a) ∧ (s < 0 → a <= b))
  ∨ (0 < n ∧ 0 < s ∧ a + (n - 1) * s < b <= a + n * s)
  ∨ (0 < n ∧ s < 0 ∧ a + n * s <= b < a + (n - 1) * s).

(** The conversion of a range back to slice form at the end of
    [_resolve_idx_slice_slice]. *)
Definition range_to_slice (r : pyrange) : pyslice :=
  Slice (Some (r_start r))
        (if range_len r =? 0 then Some (r_start r)
         else if r_stop r <? 0 then None
         else Some (r_stop r))
        (Some (r_step r)).

(** The reading of the slice-slice rule in which the two clauses on the
    stop are independent: an empty range gives [stop = start], and a range
    whose stop is negative gives an open stop. *)
Definition slice_slice_stop_clauses (old new : pyslice) (l : Z) : Prop :=
  ∃ r0 r c,
    indices old l = Ok r0 ∧ range_getslice r0 new = Ok r
    ∧ _resolve_idx_slice_slice old new l = Ok c
    ∧ (range_len r = 0 → sl_stop c = sl_start c)
    ∧ (r_stop r < 0 → sl_stop c = None).

(** The integer positions a composed index lists explicitly: those of an
    array or a scalar. *)
Definition positions (i : index) : list Z :=
  match i with
  | IArr a => a
  | IInt k => [k]
  | _ => []
  end.

(** [slice(None)], the whole axis. *)
Definition full_slice : pyslice := Slice None None None.

End Idx.

(** ** Classes, objects and the store *)

Module Cow.

(** The classes of [views.py], the native containers they extend, and
    any other class [Other name base] with a single base. *)
Inductive pyclass :=
| object
| ndarray
| DataFrame
| csr_matrix
| csc_matrix
| dict
| ZappyArray
| _SetItemMixin
| _ViewMixin
| ArrayView
| SparseCSRView
| SparseCSCView
| DictView
| DataFrameView
| Other (name : string) (base : pyclass).

#[global] Instance pyclass_eq_dec : EqDecision pyclass.
Proof. solve_decision. Defined.

(** The method resolution order of each class, as the class statements
    of the source give it (the native containers are taken as direct
    subclasses of [object]). *)
Fixpoint mro (c : pyclass) : list pyclass :=
  match c with
  | object => [object]
  | _ViewMixin => [_ViewMixin; _SetItemMixin; object]
  | ArrayView => [ArrayView; _SetItemMixin; ndarray; object]
  | SparseCSRView => [SparseCSRView; _ViewMixin; _SetItemMixin; csr_matrix; object]
  | SparseCSCView => [SparseCSCView; _ViewMixin; _SetItemMixin; csc_matrix; object]
  | DictView => [DictView; _ViewMixin; _SetItemMixin; dict; object]
  | DataFrameView => [DataFrameView; _ViewMixin; _SetItemMixin; DataFrame; object]
  | Other name base => c :: mro base
  | _ => [c; object]
  end.

(** The methods each class body defines, among those the views use. *)
Definition defines (c : pyclass) (m : string) : bool :=
  match c with
  | _SetItemMixin => bool_decide (m ∈ ["__setitem__"; "_update"])
  | _ViewMixin => bool_decide (m ∈ ["__init__"; "__deepcopy__"])
  | ArrayView =>
      bool_decide (m ∈ ["__new__"; "__array_finalize__"; "keys"; "copy"; "toarray"])
  | SparseCSRView | SparseCSCView => bool_decide (m = "copy")
  | DataFrameView => bool_decide (m = "drop")
  | DictView => false
  | ndarray => bool_decide (m ∈ ["__setitem__"; "copy"; "__deepcopy__"])
  | DataFrame => bool_decide (m ∈ ["__setitem__"; "copy"; "__deepcopy__"; "drop"])
  | csr_matrix | csc_matrix => bool_decide (m ∈ ["__setitem__"; "copy"])
  | dict => bool_decide (m ∈ ["__setitem__"; "copy"])
  | object => bool_decide (m = "__reduce_ex__")
  | ZappyArray | Other _ _ => false
  end.

(** Attribute lookup on a type: the first class of the MRO that defines
    the method. *)
Definition resolve (c : pyclass) (m : string) : option pyclass :=
  find (λ k, defines k m) (mro c).

(** The native container a class stores its data as. *)
Definition native (c : pyclass) : option pyclass :=
  find (λ k, bool_decide (k ∈ [ndarray; DataFrame; csr_matrix; csc_matrix; dict]))
       (mro c).

Definition is_view_class (c : pyclass) : bool :=
  bool_decide (_SetItemMixin ∈ mro c).

(** Keys of mappings and positions of arrays. *)
Inductive key :=
| KStr (s : string)
| KInt (i : Z).

#[global] Instance key_eq_dec : EqDecision key.
Proof. solve_decision. Defined.

(** A container with its contents: a scalar, or a native container of
    some class holding entries under keys. Mappings may hold containers. *)
#[warnings="-register-all"] Inductive tree :=
| Leaf (z : Z)
| Node (c : pyclass) (kids : list (key * tree)).

Abbreviation loc := nat.

(** Where the data of a Python container object lives: a storage cell
    and the keys leading to it inside the cell.  Two objects with the same
    cursor, or with cursors into the same cell, share memory. *)
Abbreviation cursor := (loc * list key)%type.

(** [ElementRef] of [anndata._core.access]: the named tuple
    [(parent, attrname, keys)]. *)
Record ElementRef := MkElementRef {
  parent : loc;
  attrname : string;
  keys : list key }.

(** A container object: its class, its storage and, for the view
    classes, the attribute [_view_args]. *)
Record pyobj := PyObj {
  cls : pyclass;
  data : cursor;
  _view_args : option ElementRef }.

(** An AnnData object, as far as the views see it: its attributes, each
    bound to a storage cell, and [_adata_ref], the object it is a view of. *)
Record anndata := AnnData {
  attrs : list (string * loc);
  _adata_ref : option loc }.

(** What a run leaves behind besides the store contents. *)
Inductive event :=
| Warned (category message : string)
| Copied (src new : loc)
| InitAsActual (target new : loc).

Record store := Store {
  cells : list tree;
  adatas : list anndata;
  trace : list event }.

(** ** Computations on the store that may raise *)

Definition M (A : Type) : Type := store → result A * store.

Definition ret {A} (a : A) : M A := λ σ, (Ok a, σ).
Definition raise {A} (e : exn) : M A := λ σ, (Raise e, σ).
Definition bind {A B} (m : M A) (k : A → M B) : M B :=
  λ σ, match m σ with
       | (Ok a, σ') => k a σ'
       | (Raise e, σ') => (Raise e, σ')
       end.

Notation "'let*' x := e 'in' k" := (bind e (λ x, k))
  (at level 10, x pattern, e at level 100, k at level 200, only parsing).

Definition lift {A} (r : result A) : M A := λ σ, (r, σ).

Definition emit (ev : event) : M unit :=
  λ σ, (Ok tt, Store (cells σ) (adatas σ) (trace σ ++ [ev])).

(** [warnings.warn(message, category)] under a filter that lets the
    warning through. *)
Definition warn (category message : string) : M unit :=
  emit (Warned category message).

(** ** Containers inside a cell *)

Definition kids_lookup (k : key) (kids : list (key * tree)) : option tree :=
  snd <$> find (λ kt, bool_decide (kt.1 = k)) kids.

Fixpoint kids_replace (k : key) (t : tree) (kids : list (key * tree))
  : list (key * tree) :=
  match kids with
  | [] => []
  | (k', t') :: kids' =>
      if decide (k' = k) then (k, t) :: kids'
      else (k', t') :: kids_replace k t kids'
  end.

Definition missing_key (c : pyclass) : exn :=
  if bool_decide (c ∈ [dict; DataFrame]) then KeyError else IndexError.

(** [d[k]] on a native container. *)
Definition tree_getitem (k : key) (t : tree) : result tree :=
  match t with
  | Leaf _ => Raise TypeError
  | Node c kids =>
      match kids_lookup k kids with
      | Some t' => Ok t'
      | None => Raise (missing_key c)
      end
  end.

(** The container the keys [p] lead to, from [t]. *)
Fixpoint tree_get (p : list key) (t : tree) : result tree :=
  match p with
  | [] => Ok t
  | k :: p' => t' ← tree_getitem k t; tree_get p' t'
  end.

(** Apply the in-place operation [f] to the container the keys [p] lead
    to. *)
Fixpoint tree_update (p : list key) (f : tree → result tree) (t : tree)
  : result tree :=
  match p with
  | [] => f t
  | k :: p' =>
      match t with
      | Leaf _ => Raise TypeError
      | Node c kids =>
          match kids_lookup k kids with
          | Some t' => t'' ← tree_update p' f t'; Ok (Node c (kids_replace k t'' kids))
          | None => Raise (missing_key c)
          end
      end
  end.

(** The native [__setitem__]: an existing entry is overwritten; a new
    key is added by mappings and tables and is out of bounds for arrays
    and sparse matrices. *)
Definition node_setitem (idx : key) (value : tree) (t : tree) : result tree :=
  match t with
  | Leaf _ => Raise TypeError
  | Node c kids =>
      match kids_lookup idx kids with
      | Some _ => Ok (Node c (kids_replace idx value kids))
      | None =>
          if bool_decide (c ∈ [dict; DataFrame])
          then Ok (Node c (kids ++ [(idx, value)]))
          else Raise IndexError
      end
  end.

(** [pd.DataFrame.drop(columns=labels)] on the contents: the labels are
    those of item access, the columns; every label must be present, and
    the labelled entries go.  A table holds its columns under their labels
    and nothing else, so a drop along the rows is not modelled. *)
Definition node_drop (labels : list key) (t : tree) : result tree :=
  match t with
  | Leaf _ => Raise TypeError
  | Node c kids =>
      if forallb (λ k, bool_decide (is_Some (kids_lookup k kids))) labels
      then Ok (Node c (filter (λ kt, kt.1 ∉ labels) kids))
      else Raise KeyError
  end.

(** ** Reading and writing the store *)

Definition read (d : cursor) : M tree :=
  λ σ, match cells σ !! d.1 with
       | Some t => (tree_get d.2 t, σ)
       | None => (Raise AttributeError, σ)
       end.

(** An in-place operation on the container at [d]. *)
Definition cell_update (d : cursor) (f : tree → result tree) : M unit :=
  λ σ, match cells σ !! d.1 with
       | Some t =>
           match tree_update d.2 f t with
           | Ok t' => (Ok tt, Store (<[d.1 := t']> (cells σ)) (adatas σ) (trace σ))
           | Raise e => (Raise e, σ)
           end
       | None => (Raise AttributeError, σ)
       end.

(** A new cell holding [t]. *)
Definition alloc (t : tree) : M loc :=
  λ σ, (Ok (length (cells σ)), Store (cells σ ++ [t]) (adatas σ) (trace σ)).

(** The class of the container stored at [d]. *)
Definition tree_class (t : tree) : pyclass :=
  match t with
  | Leaf _ => object
  | Node c _ => c
  end.

(** The plain object for the container stored at [d]. *)
Definition plain_at (d : cursor) : M pyobj :=
  let* t := read d in ret (PyObj (tree_class t) d None).


(** ** The AnnData object at the boundary of the views *)

(** [getattr(adata, name)]: the container an attribute is bound to. *)
Definition getattr (a : loc) (name : string) : M cursor :=
  λ σ, match adatas σ !! a with
       | Some ad =>
           match find (λ nc, bool_decide (nc.1 = name)) (attrs ad) with
           | Some (_, c) => (Ok (c, []), σ)
           | None => (Raise AttributeError, σ)
           end
       | None => (Raise AttributeError, σ)
       end.

(** [d[k]] for a container [d]: the container stored under [k]. *)
Definition getitem (d : cursor) (k : key) : M cursor :=
  let* t := read d in
  let* _ := lift (tree_getitem k t) in
  ret (d.1, d.2 ++ [k]).

(** [functools.reduce(f, l, init)] *)
Fixpoint reduce {A B} (f : A → B → M A) (l : list B) (init : A) : M A :=
  match l with
  | [] => ret init
  | k :: l' => let* d := f init k in reduce f l' d
  end.

(** Modelled from the spec: [AnnData.copy], which is outside views.py:
    the root "exposes copy() -> Root (independent full copy)", "deep
    enough that no storage is shared with the original root".  Every
    attribute of the copy is bound to a new cell with the same contents. *)
Definition copy_attrs (cs : list tree) (l : list (string * loc))
  : result (list tree * list (string * loc)) :=
  ts ← traverse (λ nc, match cs !! nc.2 with
                       | Some t => Ok t
                       | None => Raise AttributeError
                       end) l;
  Ok (cs ++ ts, zip (l.*1) (seq (length cs) (length ts))).

(** Modelled from the spec: [AnnData.copy] on the store; the copy is a
    new AnnData object that is not a view of anything. *)
Definition AnnData_copy (a : loc) : M loc :=
  λ σ, match adatas σ !! a with
       | Some ad =>
           match copy_attrs (cells σ) (attrs ad) with
           | Ok (cs', l') =>
               let new := length (adatas σ) in
               (Ok new, Store cs' (adatas σ ++ [AnnData l' None])
                              (trace σ ++ [Copied a new]))
           | Raise e => (Raise e, σ)
           end
       | None => (Raise AttributeError, σ)
       end.

(** Modelled from the spec: [AnnData._init_as_actual(new)], which is
    outside views.py: the root "adopts new_root's state as its own, in
    place, and must thereafter no longer consider itself derived from
    anything".  The attributes of [self] are rebound to the containers of
    [new]; no container is written. *)
Definition _init_as_actual (self new : loc) : M unit :=
  λ σ, match adatas σ !! self, adatas σ !! new with
       | Some _, Some n =>
           (Ok tt, Store (cells σ) (<[self := AnnData (attrs n) None]> (adatas σ))
                         (trace σ ++ [InitAsActual self new]))
       | _, _ => (Raise AttributeError, σ)
       end.

(** What is observable through an AnnData object: the contents its
    attribute [name] holds under the keys [p]. *)
Definition observe (a : loc) (name : string) (p : list key) : M tree :=
  let* d := getattr a name in read (d.1, p).

(** ** Generator-based context managers *)

(** A function decorated with [@contextmanager] whose body has one
    [yield] outside any [try]: the code before the yield computes the
    yielded value and the local variables, the code after it uses them. *)
Record genctx (L Y : Type) := GenCtx {
  before_yield : M (L * Y);
  after_yield : L → M unit }.
Arguments GenCtx {L Y} _ _.
Arguments before_yield {L Y} _.
Arguments after_yield {L Y} _.

(** [with g as y: body].  When the body raises, [__exit__] throws the
    exception into the generator at the yield; no handler is there, so the
    generator ends without running the code after the yield and the
    exception propagates.  When the body returns, the generator is resumed
    and runs to its end. *)
Definition with_ {L Y A} (g : genctx L Y) (body : Y → M A) : M A :=
  bind (before_yield g) (λ '(locals, y) σ,
    match body y σ with
    | (Ok a, σ') => (let* _ := after_yield g locals in ret a) σ'
    | (Raise e, σ') => (Raise e, σ')
    end).

(** ** [_SetItemMixin] *)

(** The native [__setitem__] that [super().__setitem__] reaches, and that
    a plain container runs: an in-place write to the object's storage. *)
Definition native_setitem (self : pyobj) (idx : key) (value : tree) : M unit :=
  cell_update (data self) (node_setitem idx value).

(** [_SetItemMixin._update] *)
Definition _update (self : pyobj) : genctx (loc * loc) pyobj :=
  GenCtx
    (match _view_args self with
     | None => raise TypeError
     | Some (MkElementRef adata_view attr_name keys) =>
         let* new := AnnData_copy adata_view in
         let* attr := getattr new attr_name in
         let* container := reduce getitem keys attr in
         let* container := plain_at container in
         ret ((adata_view, new), container)
     end)
    (λ '(adata_view, new), _init_as_actual adata_view new).

Definition modification_message (attrname : string) : string :=
  "Trying to modify attribute `." +:+ attrname
  +:+ "` of view, initializing view as actual.".

(** [_SetItemMixin.__setitem__].  The yielded container belongs to the
    copy, so [container[idx] = value] is the native assignment. *)
Definition __setitem__ (self : pyobj) (idx : key) (value : tree) : M unit :=
  match _view_args self with
  | None => native_setitem self idx value
  | Some ref =>
      let* _ := warn "ImplicitModificationWarning"
                     (modification_message (attrname ref)) in
      with_ (_update self) (λ container, native_setitem container idx value)
  end.

(** ** numpy's subclass protocol *)

(** [ArrayView.__array_finalize__]; [getattr(obj, "_view_args", None)]
    reads [None] from an object without the attribute. *)
Definition __array_finalize__ (self : pyobj) (obj : option pyobj) : pyobj :=
  match obj with
  | Some o => PyObj (cls self) (data self) (_view_args o)
  | None => self
  end.

(** numpy creating an array from a template array (a slice, a reshape, a
    ufunc result, [ndarray.copy], a view cast to class [c]) over the data
    [d]: the new object is finalized from the template when its class has
    the hook. *)
Definition array_from_template (c : pyclass) (d : cursor) (template : pyobj)
  : pyobj :=
  let raw := PyObj c d None in
  match resolve c "__array_finalize__" with
  | Some ArrayView => __array_finalize__ raw (Some template)
  | _ => raw
  end.

Abbreviation view_args_tuple := (loc * string * list key)%type.

(** [ElementRef( *view_args)] *)
Definition to_ElementRef (v : view_args_tuple) : ElementRef :=
  MkElementRef v.1.1 v.1.2 v.2.

(** [ArrayView.__new__(cls, input_array, view_args)] *)
Definition ArrayView___new__ (input_array : pyobj) (view_args : option view_args_tuple)
  : pyobj :=
  let arr := array_from_template ArrayView (data input_array) input_array in
  let view_args := to_ElementRef <$> view_args in
  PyObj (cls arr) (data arr) view_args.

(** ** Copies *)

(** A new object of class [c] over a fresh copy of the contents of
    [self]. *)
Definition fresh_copy (c : pyclass) (self : pyobj) : M pyobj :=
  let* t := read (data self) in
  let* l := alloc t in
  ret (PyObj c (l, []) None).

(** [ArrayView.copy]: [np.array(self)], an array of the base class. *)
Definition ArrayView_copy (self : pyobj) : M pyobj := fresh_copy ndarray self.

(** [ArrayView.toarray] *)
Definition ArrayView_toarray (self : pyobj) : M pyobj := ArrayView_copy self.

(** [SparseCSRView.copy]: [sparse.csr_matrix(self)] is a plain matrix on
    the same data, and its [copy()] a plain matrix on new data. *)
Definition SparseCSRView_copy (self : pyobj) : M pyobj :=
  fresh_copy csr_matrix (PyObj csr_matrix (data self) None).

(** [SparseCSCView.copy] *)
Definition SparseCSCView_copy (self : pyobj) : M pyobj :=
  fresh_copy csc_matrix (PyObj csc_matrix (data self) None).

(** [ndarray.copy]: keeps the class of [self]. *)
Definition ndarray_copy (self : pyobj) : M pyobj :=
  let* t := read (data self) in
  let* l := alloc t in
  ret (array_from_template (cls self) (l, []) self).

(** [self.copy()], by method resolution.  [dict.copy] returns a [dict]
    and [pd.DataFrame.copy] a [DataFrame] (its [_constructor], which
    [DataFrameView] does not override); the sparse [copy] builds an object
    of the class of [self].  The copy of a mapping has entries of its own,
    here in a cell of its own; that [dict.copy] shares the values with the
    original is not represented. *)
Definition copy (self : pyobj) : M pyobj :=
  match resolve (cls self) "copy" with
  | Some ArrayView => ArrayView_copy self
  | Some SparseCSRView => SparseCSRView_copy self
  | Some SparseCSCView => SparseCSCView_copy self
  | Some ndarray => ndarray_copy self
  | Some dict => fresh_copy dict self
  | Some DataFrame => fresh_copy DataFrame self
  | Some csr_matrix | Some csc_matrix => fresh_copy (cls self) self
  | _ => raise AttributeError
  end.

(** [copy.deepcopy] of an object whose class has no [__deepcopy__] of
    this repository: [ndarray.__deepcopy__] keeps the class, as
    [ndarray.copy] does; [DataFrame.__deepcopy__] is [copy(deep=True)];
    otherwise [__reduce_ex__] rebuilds an object of the same class with
    the same attributes on copied data. *)
Definition deepcopy_native (o : pyobj) : M pyobj :=
  match resolve (cls o) "__deepcopy__" with
  | Some ndarray => ndarray_copy o
  | Some DataFrame => fresh_copy DataFrame o
  | _ =>
      let* t := read (data o) in
      let* l := alloc t in
      ret (PyObj (cls o) (l, []) (_view_args o))
  end.

(** [_ViewMixin.__deepcopy__] *)
Definition _ViewMixin___deepcopy__ (self : pyobj) : M pyobj :=
  match _view_args self with
  | None => raise TypeError
  | Some (MkElementRef parent attrname keys) =>
      let* p := (λ σ, match adatas σ !! parent with
                      | Some p => (Ok p, σ)
                      | None => (Raise AttributeError, σ)
                      end) in
      match _adata_ref p with
      | None => raise AttributeError
      | Some ref =>
          let* attr := getattr ref attrname in
          let* o := plain_at attr in
          deepcopy_native o
      end
  end.

(** [copy.deepcopy(o)] *)
Definition deepcopy (o : pyobj) : M pyobj :=
  match resolve (cls o) "__deepcopy__" with
  | Some _ViewMixin => _ViewMixin___deepcopy__ o
  | _ => deepcopy_native o
  end.

(** ** [DataFrameView.drop] *)

(** [pd.DataFrame.drop(columns=labels, inplace=...)]: in place it returns
    [None]; otherwise it returns a new table and leaves [df] alone. *)
Definition DataFrame_drop (df : pyobj) (labels : list key) (inplace : bool)
  : M (option pyobj) :=
  if inplace then
    let* _ := cell_update (data df) (node_drop labels) in ret None
  else
    let* t := read (data df) in
    let* t' := lift (node_drop labels t) in
    let* l := alloc t' in
    ret (Some (PyObj DataFrame (l, []) None)).

(** [DataFrameView.drop(columns=labels, inplace=inplace)]: what is not
    [inplace] is passed on to [pd.DataFrame.drop] as it is. *)
Definition drop (self : pyobj) (labels : list key) (inplace : bool)
  : M (option pyobj) :=
  if negb inplace then
    let* c := copy self in
    DataFrame_drop c labels false
  else
    with_ (_update self) (λ df, DataFrame_drop df labels true).

(** ** The construction registry *)

(** [_ViewMixin.__init__] followed by the native constructor: the view
    of class [c] on the data of [obj].  A [dict] built from a mapping has
    entries of its own, here in a cell of its own; a cell holds the values
    of its entries, not references to them, so that [dict(d)] shares the
    values with [d] is not represented.  A table or a sparse matrix built
    from another starts on the data it is given; when a later write makes
    pandas or scipy give one of the two arrays of its own is not
    represented either. *)
Definition view_init (c : pyclass) (obj : pyobj) (view_args : option view_args_tuple)
  : M pyobj :=
  let view_args := to_ElementRef <$> view_args in
  if decide (c = DictView) then
    let* t := read (data obj) in
    let* l := alloc t in
    ret (PyObj c (l, []) view_args)
  else ret (PyObj c (data obj) view_args).

(** The classes [as_view] has an implementation registered for. *)
Definition registry : list pyclass :=
  [ndarray; DataFrame; csr_matrix; csc_matrix; dict; ZappyArray].

(** [functools.singledispatch]: the first registered class along the MRO
    of the argument's type, and the default implementation, registered
    for [object], when there is none. *)
Definition dispatch (c : pyclass) : pyclass :=
  default object (find (λ k, bool_decide (k ∈ registry)) (mro c)).

Definition class_name (c : pyclass) : string :=
  match c with
  | object => "object"
  | ndarray => "numpy.ndarray"
  | DataFrame => "pandas.core.frame.DataFrame"
  | csr_matrix => "scipy.sparse.csr.csr_matrix"
  | csc_matrix => "scipy.sparse.csc.csc_matrix"
  | dict => "dict"
  | ZappyArray => "anndata.compat.ZappyArray"
  | _SetItemMixin => "anndata._core.views._SetItemMixin"
  | _ViewMixin => "anndata._core.views._ViewMixin"
  | ArrayView => "anndata._core.views.ArrayView"
  | SparseCSRView => "anndata._core.views.SparseCSRView"
  | SparseCSCView => "anndata._core.views.SparseCSCView"
  | DictView => "anndata._core.views.DictView"
  | DataFrameView => "anndata._core.views.DataFrameView"
  | Other name _ => name
  end.

(** [str(type(obj))] *)
Definition type_repr (c : pyclass) : string :=
  "<class '" +:+ class_name c +:+ "'>".

(** [as_view(obj, view_args)] with its registered implementations. *)
Definition as_view (obj : pyobj) (view_args : option view_args_tuple) : M pyobj :=
  match dispatch (cls obj) with
  | ndarray => ret (ArrayView___new__ obj view_args)
  | DataFrame => view_init DataFrameView obj view_args
  | csr_matrix => view_init SparseCSRView obj view_args
  | csc_matrix => view_init SparseCSCView obj view_args
  | dict => view_init DictView obj view_args
  | ZappyArray => ret obj
  | _ =>
      raise (NotImplementedError
               ("No view type has been registered for " +:+ type_repr (cls obj)))
  end.

Definition is_warning (ev : event) : bool :=
  match ev with
  | Warned _ _ => true
  | _ => false
  end.

(** What numpy derives from the array [o] by a read (a slice, a reshape,
    a ufunc result), over the data [d]. *)
Definition derive (o : pyobj) (d : cursor) : pyobj :=
  array_from_template (cls o) d o.

(** The deep copy of the attribute [attrname ref] of the AnnData object
    [r], which is not a view. *)
Definition deepcopy_of_attribute (r : loc) (ref : ElementRef) : M pyobj :=
  let* attr := getattr r (attrname ref) in
  let* o := plain_at attr in
  deepcopy_native o.

(** ** A small store to run the definitions on *)

(** AnnData object [0] owns a dense [X], a mapping [obsm] and a table
    [obs]; AnnData object [1] is a view of it, whose attributes share the
    cells of [0]. *)
Definition example_store : store :=
  Store [Node ndarray [(KInt 0, Leaf 1); (KInt 1, Leaf 2)];
         Node dict [(KStr "pca", Node ndarray [(KInt 0, Leaf 5)])];
         Node DataFrame [(KStr "a", Leaf 3); (KStr "b", Leaf 4)]]
        [AnnData [("X", 0); ("obsm", 1); ("obs", 2)] None;
         AnnData [("X", 0); ("obsm", 1); ("obs", 2)] (Some 0)]
        [].

Definition example_ref : ElementRef := MkElementRef 1 "obsm" [KStr "pca"].

(** The dense view of [obsm["pca"]] of the view [1]. *)
Definition example_view : pyobj :=
  PyObj ArrayView (1, [KStr "pca"]) (Some example_ref).

(** The mapping view of [obsm] and the table view of [obs] of the
    view [1]. *)
Definition example_dict_view : pyobj :=
  PyObj DictView (1, []) (Some (MkElementRef 1 "obsm" [])).

Definition example_table_view : pyobj :=
  PyObj DataFrameView (2, []) (Some (MkElementRef 1 "obs" [])).

(** A second store: AnnData object [0] owns a mapping [obsm] that holds a
    table under ["df"]; AnnData object [1] is a view of it. *)
Definition example_nested_store : store :=
  Store [Node dict [(KStr "df", Node DataFrame [(KStr "a", Leaf 3);
                                                (KStr "b", Leaf 4)])]]
        [AnnData [("obsm", 0)] None; AnnData [("obsm", 0)] (Some 0)]
        [].

(** The table view of [obsm["df"]] of the view [1]. *)
Definition example_nested_table_view : pyobj :=
  PyObj DataFrameView (0, [KStr "df"]) (Some (MkElementRef 1 "obsm" [KStr "df"])).


(** ** Notions used in the statements *)

(** A computation that leaves the store as it found it. *)
Definition pure {A} (m : M A) : Prop := ∀ σ r σ', m σ = (r, σ') → σ' = σ.

(** Every entry of [l] is still there, unchanged, in [l']. *)
Definition preserved {A} (l l' : list A) : Prop :=
  ∀ i x, l !! i = Some x → l' !! i = Some x.

(** A computation that only adds cells: no cell is written, no AnnData
    object is touched and nothing is recorded. *)
Definition allocating {A} (m : M A) : Prop :=
  ∀ σ r σ', m σ = (r, σ') →
            adatas σ' = adatas σ ∧ trace σ' = trace σ
            ∧ ∃ ext, cells σ' = cells σ ++ ext.

(** The reading of C3 in which the commit is reached on every exit of
    the body. *)
Definition commits_on_every_exit (self : pyobj) (body : pyobj → M unit)
    (σ : store) : Prop :=
  ∀ root new container σ1 r σ',
    before_yield (_update self) σ = (Ok ((root, new), container), σ1) →
    with_ (_update self) body σ = (r, σ') →
    ∃ n, adatas σ' !! new = Some n
         ∧ adatas σ' !! root = Some (AnnData (attrs n) None).

(** The reading of C8 over every view class: the deep copy of a view
    with a descriptor is the deep copy of the attribute on the AnnData
    object the root is a view of, and is no view. *)
Definition deepcopy_bypasses_view (self : pyobj) (σ : store) : Prop :=
  ∀ ref p r,
    _view_args self = Some ref →
    adatas σ !! parent ref = Some p → _adata_ref p = Some r →
    deepcopy self σ = deepcopy_of_attribute r ref σ
    ∧ ∀ o σ', deepcopy self σ = (Ok o, σ') → is_view_class (cls o) = false.


(** The key paths [w] and [p] part ways: after a common prefix they go
    on under different keys. *)
Definition diverge (w p : list key) : Prop :=
  ∃ q k k' r r', w = q ++ k :: r ∧ p = q ++ k' :: r' ∧ k ≠ k'.

Definition is_commit (ev : event) : bool :=
  match ev with
  | InitAsActual _ _ => true
  | _ => false
  end.

End Cow.

(** * Properties of fallible traversals *)

Section traverse_facts.
Context {A B : Type}.
Implicit Types (f g : A → result B) (l : list A) (ys : list B).

Lemma traverse_cons_ok f x l ys :
  traverse f (x :: l) = Ok ys →
  ∃ y ys', ys = y :: ys' ∧ f x = Ok y ∧ traverse f l = Ok ys'.
Proof.
  simpl. destruct (f x) as [y|e]; [|done]. simpl.
  destruct (traverse f l) as [ys'|e]; [|done]. simpl.
  intros [= <-]. by exists y, ys'.
Qed.

Lemma traverse_length f l ys : traverse f l = Ok ys → length ys = length l.
Proof.
  revert ys. induction l as [|x l IH]; intros ys.
  - by intros [= <-].
  - intros (y & ys' & -> & _ & Hl)%traverse_cons_ok. simpl. by rewrite (IH ys').
Qed.

(** The [i]-th output is [f] of the [i]-th input, in both directions. *)
Lemma traverse_lookup f l ys i x :
  traverse f l = Ok ys → l !! i = Some x → ∃ y, ys !! i = Some y ∧ f x = Ok y.
Proof.
  revert ys i. induction l as [|x' l IH]; intros ys i; [done|].
  intros (y & ys' & -> & Hx & Hl)%traverse_cons_ok.
  destruct i as [|i]; simpl.
  - intros [= ->]. by exists y.
  - by apply IH.
Qed.

Lemma traverse_lookup_inv f l ys i y :
  traverse f l = Ok ys → ys !! i = Some y → ∃ x, l !! i = Some x ∧ f x = Ok y.
Proof.
  revert ys i. induction l as [|x' l IH]; intros ys i.
  - by intros [= <-].
  - intros (y' & ys' & -> & Hx & Hl)%traverse_cons_ok.
    destruct i as [|i]; simpl.
    + intros [= ->]. by exists x'.
    + by apply IH.
Qed.

(** A traversal that succeeds with [f] succeeds alike with any [g] that
    agrees with [f] wherever [f] succeeds. *)
Lemma traverse_impl f g l ys :
  (∀ x y, x ∈ l → f x = Ok y → g x = Ok y) →
  traverse f l = Ok ys → traverse g l = Ok ys.
Proof.
  revert ys. induction l as [|x l IH]; intros ys Hfg; [done|].
  intros (y & ys' & -> & Hx & Hl)%traverse_cons_ok. simpl.
  rewrite (Hfg x y); [|left|done]. simpl.
  rewrite (IH ys'); [done| |done].
  intros x0 y0 Hin. apply Hfg. by right.
Qed.

Lemma traverse_total f l :
  (∀ x, x ∈ l → ∃ y, f x = Ok y) → ∃ ys, traverse f l = Ok ys.
Proof.
  induction l as [|x l IH]; intros Hf; [by exists []|].
  destruct (Hf x) as [y Hy]; [left|].
  destruct IH as [ys Hys]; [intros x0 Hin; apply Hf; by right|].
  exists (y :: ys). simpl. by rewrite Hy; simpl; rewrite Hys.
Qed.

End traverse_facts.

Lemma traverse_map {A B C} (f : B → result C) (g : A → B) (l : list A) :
  traverse f (map g l) = traverse (f ∘ g) l.
Proof. induction l as [|x l IH]; [done|]. simpl. by rewrite IH. Qed.

(** Traversing with [h] after a successful traversal with [f] is one
    traversal with their composition. *)
Lemma traverse_compose {A B C} (f : A → result B) (h : B → result C)
    (l : list A) (ys : list B) :
  traverse f l = Ok ys → traverse h ys = traverse (λ x, y ← f x; h y) l.
Proof.
  revert ys. induction l as [|x l IH]; intros ys.
  - by intros [= <-].
  - intros (y & ys' & -> & Hx & Hl)%traverse_cons_ok. simpl.
    rewrite Hx; simpl. by rewrite (IH ys').
Qed.
(** * Properties of index composition *)

Module IdxFacts.
Import Idx.
Local Open Scope Z_scope.

Example slice_slice_empty :
  _resolve_idx_slice_slice (Slice (Some 2) (Some 8) (Some 2))
                           (Slice (Some 5) (Some 5) None) 10
  = Ok (Slice (Some 8) (Some 8) (Some 2)).
Proof. reflexivity. Qed.

Example mask_then_one :
  _resolve_idx (IBool [true; false; true; true; false]) (IInt 1) 5 = Ok (IInt 2).
Proof. reflexivity. Qed.

(** *** Lengths of ranges *)

Lemma range_len_spec r :
  r_step r ≠ 0 → len_spec (r_start r) (r_stop r) (r_step r) (range_len r).
Proof.
  destruct r as [a b s]; unfold len_spec, range_len; simpl; intros Hs.
  destruct (Z.ltb_spec 0 s) as [Hpos|Hneg].
  - destruct (Z.ltb_spec a b) as [Hab|Hab]; [|left; lia].
    right; left.
    pose proof (Z.div_mod (b - a - 1) s ltac:(lia)) as Hdm.
    pose proof (Z.mod_pos_bound (b - a - 1) s Hpos) as Hm.
    pose proof (Z.div_pos (b - a - 1) s ltac:(lia) Hpos) as Hq.
    nia.
  - destruct (Z.ltb_spec b a) as [Hab|Hab]; [|left; lia].
    right; right.
    pose proof (Z.div_mod (a - b - 1) (- s) ltac:(lia)) as Hdm.
    pose proof (Z.mod_pos_bound (a - b - 1) (- s) ltac:(lia)) as Hm.
    pose proof (Z.div_pos (a - b - 1) (- s) ltac:(lia) ltac:(lia)) as Hq.
    nia.
Qed.

Lemma len_spec_unique a b s n m :
  len_spec a b s n → len_spec a b s m → n = m.
Proof. unfold len_spec; intros Hn Hm; nia. Qed.

Lemma range_len_nonneg r : 0 <= range_len r.
Proof.
  destruct (Z.eq_dec (r_step r) 0) as [H0|Hs].
  - unfold range_len; rewrite H0; simpl.
    destruct (r_stop r <? r_start r); [rewrite Z.div_0_r|]; lia.
  - pose proof (range_len_spec r Hs) as H; unfold len_spec in H; lia.
Qed.

Lemma range_len_eq r n :
  r_step r ≠ 0 → len_spec (r_start r) (r_stop r) (r_step r) n → range_len r = n.
Proof. intros Hs Hn. eapply len_spec_unique; [apply range_len_spec|]; done. Qed.

(** *** Normalized slices *)

Lemma indices_nonneg s l : 0 <= l → indices s l = adjust_indices s l.
Proof. intros Hl. unfold indices. by destruct (Z.ltb_spec l 0); [lia|]. Qed.

Lemma indices_ok s l :
  sl_step s ≠ Some 0 → 0 <= l → ∃ r, indices s l = Ok r ∧ r_step r ≠ 0.
Proof.
  intros Hs Hl. rewrite indices_nonneg by done. unfold adjust_indices.
  destruct (Z.eqb_spec (default 1 (sl_step s)) 0) as [H0|Hn].
  - destruct (sl_step s) as [z|]; simpl in H0; [subst; done | lia].
  - eexists; split; [reflexivity | exact Hn].
Qed.

Lemma indices_step s l r : indices s l = Ok r → r_step r ≠ 0.
Proof.
  unfold indices, adjust_indices. destruct (l <? 0); [done|].
  destruct (Z.eqb_spec (default 1 (sl_step s)) 0); [done|].
  intros [= <-]; done.
Qed.



(** Every position a normalized slice denotes lies on the axis. *)
Lemma indices_in_bounds s l r i :
  0 <= l → indices s l = Ok r → 0 <= i < range_len r →
  0 <= range_item r i < l.
Proof.
  intros Hl Hr Hi.
  pose proof (range_len_spec r (indices_step _ _ _ Hr)) as Hlen.
  rewrite indices_nonneg in Hr by done.
  revert Hr Hlen. unfold adjust_indices, len_spec, range_item, clamp_bound.
  destruct (Z.eqb_spec (default 1 (sl_step s)) 0); [done|].
  intros [= <-]; simpl. set (st := default 1 (sl_step s)) in *.
  destruct (Z.ltb_spec st 0);
    destruct (sl_start s) as [a|], (sl_stop s) as [b|];
    repeat match goal with |- context [?x <? 0] => destruct (Z.ltb_spec x 0) end;
    intros; nia.
Qed.

(** Slicing a range: the new range has as many elements as the slice
    selects, and its [i]-th element is the old range's element at the
    slice's [i]-th position. *)
Lemma range_getslice_spec r0 new r :
  r_step r0 ≠ 0 → range_getslice r0 new = Ok r →
  ∃ n, indices new (range_len r0) = Ok n
       ∧ r_step r ≠ 0
       ∧ range_len r = range_len n
       ∧ ∀ i, range_item r i = range_item r0 (range_item n i).
Proof.
  intros H0. unfold range_getslice.
  destruct (indices new (range_len r0)) as [n|e] eqn:Hn; [|done].
  intros [= <-]. exists n.
  pose proof (indices_step _ _ _ Hn) as Hs.
  split; [done|]. split; [simpl; nia|]. split.
  - apply range_len_eq; [simpl; nia|]. simpl.
    pose proof (range_len_spec n Hs) as Hl. revert Hl.
    unfold len_spec, range_item. generalize (range_len n). intros m Hm.
    assert (0 < r_step r0 ∨ r_step r0 < 0) as [Hp|Hp] by lia;
      assert (0 < r_step n ∨ r_step n < 0) as [Hq|Hq] by lia; nia.
  - intros i. unfold range_item; simpl. ring.
Qed.

Lemma _resolve_idx_slice_slice_eq old new l :
  _resolve_idx_slice_slice old new l
  = (r0 ← indices old l; r ← range_getslice r0 new; Ok (range_to_slice r)).
Proof. reflexivity. Qed.

Lemma range_elems_ext r r' :
  range_len r = range_len r' →
  (0 < range_len r' → r_start r = r_start r' ∧ r_step r = r_step r') →
  range_elems r = range_elems r'.
Proof.
  intros Hl Hs. unfold range_elems. rewrite Hl.
  destruct (Z.eq_dec (range_len r') 0) as [->|Hn]; [done|].
  pose proof (range_len_nonneg r').
  destruct Hs as [Ha Hb]; [lia|].
  unfold range_item. by rewrite Ha, Hb.
Qed.

(** Over an axis that contains the range, the slice form denotes the same
    positions as the range. *)
Lemma range_to_slice_indices r l :
  r_step r ≠ 0 → 0 <= l →
  (∀ i, 0 <= i < range_len r → 0 <= range_item r i < l) →
  ∃ rf, indices (range_to_slice r) l = Ok rf ∧ range_elems rf = range_elems r.
Proof.
  intros Hs Hl Hin.
  destruct (indices_ok (range_to_slice r) l) as (rf & Hrf & Hsf);
    [simpl; congruence|done|].
  exists rf; split; [done|].
  pose proof (range_len_spec r Hs) as Hlen.
  pose proof (range_len_nonneg r) as Hnn.
  assert (Hfirst : 0 < range_len r → 0 <= r_start r < l).
  { intros Hp. specialize (Hin 0 ltac:(lia)). unfold range_item in Hin. lia. }
  assert (Hlast : 0 < range_len r →
                  0 <= r_start r + (range_len r - 1) * r_step r < l).
  { intros Hp. specialize (Hin (range_len r - 1) ltac:(lia)).
    unfold range_item in Hin. lia. }
  rewrite indices_nonneg in Hrf by done.
  revert Hrf. unfold adjust_indices, range_to_slice; simpl.
  destruct (Z.eqb_spec (r_step r) 0); [done|].
  intros [= <-].
  apply range_elems_ext.
  - apply range_len_eq; [done|]. simpl. unfold clamp_bound.
    revert Hlen Hfirst Hlast. unfold len_spec. generalize (range_len r) as m.
    intros m Hlen Hfirst Hlast.
    destruct (Z.eqb_spec m 0) as [->|Hm].
    + left. split; [done|]. split; intros; lia.
    + destruct (Z.ltb_spec (r_step r) 0); [right; right | right; left];
        repeat match goal with
               | |- context [?x <? 0] => destruct (Z.ltb_spec x 0)
               end; nia.
  - simpl. intros Hp. specialize (Hfirst Hp).
    split; [|done]. unfold clamp_bound.
    destruct (Z.ltb_spec (r_step r) 0), (Z.ltb_spec (r_start r) 0); lia.
Qed.

(** *** Indexing a sequence *)

Section getitem_facts.
Context {A : Type}.
Implicit Types (base : list A) (k p : Z).

Lemma item_ok base k y :
  item base k = Ok y ↔ 0 <= k ∧ base !! Z.to_nat k = Some y.
Proof.
  unfold item, len.
  destruct (Z.leb_spec 0 k), (Z.ltb_spec k (Z.of_nat (length base))); simpl.
  - destruct (base !! Z.to_nat k) as [x|]; split.
    + by intros [= ->].
    + by intros [_ [= ->]].
    + done.
    + by intros [_ ?].
  - split; [done|]. intros [_ Hl%lookup_lt_Some]. lia.
  - split; [done|]. lia.
  - split; [done|]. lia.
Qed.

Lemma item_int_item base k y : item base k = Ok y → int_item base k = Ok y.
Proof.
  intros H. pose proof H as [Hk _]%item_ok. unfold int_item.
  by destruct (Z.ltb_spec k 0); [lia|].
Qed.

Lemma int_item_singleton (x : A) : int_item [x] 0 = Ok x.
Proof. reflexivity. Qed.

End getitem_facts.

(** *** Indexing commutes with an elementwise lookup

    [l1] is [a] looked up elementwise through [f]; then whatever a further
    index selects from [l1] is the elementwise lookup of what it selects
    from [a]. *)
Section pick.
Context {A B : Type} (f : A → result B) (a : list A) (l1 : list B).
Hypothesis Hl1 : traverse f a = Ok l1.

Lemma pick_len : len a = len l1.
Proof. unfold len. by rewrite (traverse_length _ _ _ Hl1). Qed.

Lemma pick_item p y :
  item l1 p = Ok y → ∃ x, item a p = Ok x ∧ f x = Ok y.
Proof.
  intros [Hp Hy]%item_ok.
  destruct (traverse_lookup_inv _ _ _ _ _ Hl1 Hy) as (x & Hx & Hfx).
  exists x. split; [|done]. by apply item_ok.
Qed.

Lemma pick_int_item p y :
  int_item l1 p = Ok y → ∃ x, int_item a p = Ok x ∧ f x = Ok y.
Proof. unfold int_item. rewrite pick_len. apply pick_item. Qed.

Lemma pick_traverse (pa : Z → result A) (pl : Z → result B) ps l2 :
  (∀ p y, pl p = Ok y → ∃ x, pa p = Ok x ∧ f x = Ok y) →
  traverse pl ps = Ok l2 →
  ∃ a2, traverse pa ps = Ok a2 ∧ traverse f a2 = Ok l2.
Proof.
  intros Hp. revert l2. induction ps as [|p ps IH]; intros l2.
  - intros [= <-]. by exists [].
  - intros (y & ys & -> & Hy & Hys)%traverse_cons_ok.
    destruct (Hp p y Hy) as (x & Hx & Hfx).
    destruct (IH ys Hys) as (a2 & Ha2 & Hfa2).
    exists (x :: a2); simpl. rewrite Hx; simpl. rewrite Ha2; simpl.
    by rewrite Hfx; simpl; rewrite Hfa2.
Qed.

End pick.

Lemma pick_mask {A B} (f : A → result B) mask :
  ∀ a l1, traverse f a = Ok l1 →
          traverse f (mask_filter mask a) = Ok (mask_filter mask l1).
Proof.
  induction mask as [|b mask IH]; intros a l1 Hl1; [done|].
  destruct a as [|x a].
  - by injection Hl1 as <-.
  - apply traverse_cons_ok in Hl1 as (y & ys & -> & Hy & Hys).
    destruct b; simpl; [rewrite Hy; simpl|]; by rewrite (IH a ys).
Qed.

(** Composition when the old index is an array of positions [a]: indexing
    [a] itself by [new] gives the index that selects [base[a][new]]. *)
Lemma getitem_compose_arr {A} (base : list A) (a : list Z) l1 new r2 :
  traverse (int_item base) a = Ok l1 →
  getitem l1 new = Ok r2 →
  ∃ c, getitem a new = Ok c ∧ getitem base (as_index c) = Ok r2.
Proof.
  intros Hl1. pose proof (pick_len _ _ _ Hl1) as Hlen.
  destruct new as [s|mask|js|k]; simpl.
  - rewrite Hlen. destruct (indices s (len l1)) as [n|e]; [simpl|done].
    destruct (traverse (item l1) (range_elems n)) as [l2|e] eqn:Hl2; [simpl|done].
    intros [= <-].
    destruct (pick_traverse _ (item a) (item l1) _ _
                (pick_item _ _ _ Hl1) Hl2) as (a2 & Ha2 & Hfa2).
    exists (Seq a2). rewrite Ha2; simpl. by rewrite Hfa2.
  - rewrite <- (traverse_length _ _ _ Hl1).
    destruct (decide (length mask = length l1)); [|done].
    intros [= <-]. exists (Seq (mask_filter mask a)). split; [done|]. simpl.
    by rewrite (pick_mask _ mask _ _ Hl1).
  - destruct (traverse (int_item l1) js) as [l2|e] eqn:Hl2; [simpl|done].
    intros [= <-].
    destruct (pick_traverse _ (int_item a) (int_item l1) _ _
                (pick_int_item _ _ _ Hl1) Hl2) as (a2 & Ha2 & Hfa2).
    exists (Seq a2). rewrite Ha2; simpl. by rewrite Hfa2.
  - destruct (int_item l1 k) as [y|e] eqn:Hy; [simpl|done].
    intros [= <-].
    destruct (pick_int_item _ _ _ Hl1 _ _ Hy) as (x & Hx & Hfx).
    exists (Scalar x). rewrite Hx; simpl. by rewrite Hfx.
Qed.

(** *** Boolean masks *)

Lemma where_from_spec mask : ∀ i k,
  k ∈ where_from i mask ↔ i <= k ∧ mask !! Z.to_nat (k - i) = Some true.
Proof.
  induction mask as [|b mask IH]; intros i k; simpl.
  - split; [by intros ?%elem_of_nil | by intros [_ ?]].
  - assert (Hstep : k ∈ where_from (i + 1) mask
                    ↔ i < k ∧ (b :: mask) !! Z.to_nat (k - i) = Some true).
    { rewrite IH. split.
      - intros [Hk Hm]. split; [lia|].
        replace (Z.to_nat (k - i)) with (S (Z.to_nat (k - (i + 1)))) by lia. done.
      - intros [Hk Hm]. split; [lia|].
        replace (Z.to_nat (k - i)) with (S (Z.to_nat (k - (i + 1)))) in Hm by lia.
        done. }
    destruct b.
    + rewrite elem_of_cons, Hstep. split.
      * intros [->|[Hk Hm]]; [|split; [lia|done]].
        split; [lia|]. by replace (i - i) with 0 by lia.
      * intros [Hk Hm]. destruct (Z.eq_dec k i) as [->|]; [by left|right].
        split; [lia|done].
    + rewrite Hstep. split.
      * intros [Hk Hm]. split; [lia|done].
      * intros [Hk Hm]. destruct (Z.eq_dec k i) as [->|]; [|split; [lia|done]].
        by replace (i - i) with 0 in Hm by lia.
Qed.

(** [np.where] lists exactly the true positions of the mask. *)
Lemma np_where_spec mask k :
  k ∈ np_where mask ↔ 0 <= k ∧ mask !! Z.to_nat k = Some true.
Proof. unfold np_where. rewrite where_from_spec. by rewrite Z.sub_0_r. Qed.

(** ... in strictly increasing order. *)
Lemma where_from_sorted mask : ∀ i, StronglySorted Z.lt (where_from i mask).
Proof.
  induction mask as [|b mask IH]; intros i; simpl; [constructor|].
  destruct b; [|apply IH].
  constructor; [apply IH|].
  apply Forall_forall. intros k [Hk _]%where_from_spec. lia.
Qed.

Lemma where_from_traverse {A} (base : list A) mask : ∀ pre rest,
  base = pre ++ rest → length mask = length rest →
  traverse (int_item base) (where_from (len pre) mask)
  = Ok (mask_filter mask rest).
Proof.
  induction mask as [|b mask IH]; intros pre rest Hb Hlen; [done|].
  destruct rest as [|x rest]; [done|]. simpl in Hlen.
  assert (Hnext : len pre + 1 = len (pre ++ [x])).
  { unfold len. rewrite length_app. simpl. lia. }
  assert (Hx : int_item base (len pre) = Ok x).
  { apply item_int_item, item_ok. unfold len. split; [lia|].
    rewrite Nat2Z.id, Hb. by apply list_lookup_middle. }
  pose proof (IH (pre ++ [x]) rest) as IH'. rewrite <- Hnext in IH'.
  destruct b; simpl; [rewrite Hx; simpl|];
    (rewrite IH'; [done | by rewrite <- app_assoc | lia]).
Qed.

Lemma np_where_traverse {A} (base : list A) mask :
  length mask = length base →
  traverse (int_item base) (np_where mask) = Ok (mask_filter mask base).
Proof. intros Hlen. by apply (where_from_traverse base mask []). Qed.

(** *** Slice after slice *)

Lemma range_elems_length r : len (range_elems r) = range_len r.
Proof.
  unfold len, range_elems. rewrite length_map, length_seq.
  pose proof (range_len_nonneg r). lia.
Qed.

Lemma range_elems_lookup r (i : nat) :
  (Z.of_nat i < range_len r) → range_elems r !! i = Some (range_item r (Z.of_nat i)).
Proof.
  intros Hi. unfold range_elems. rewrite list_lookup_fmap.
  rewrite lookup_seq_lt by lia. done.
Qed.

Lemma elem_of_range_elems r x :
  x ∈ range_elems r ↔ ∃ i, 0 <= i < range_len r ∧ x = range_item r i.
Proof.
  unfold range_elems. rewrite list_elem_of_fmap. split.
  - intros (i & -> & [_ Hi]%elem_of_seq). exists (Z.of_nat i). split; [lia|done].
  - intros (i & Hi & ->). exists (Z.to_nat i). split.
    + by rewrite Z2Nat.id by lia.
    + apply elem_of_seq. lia.
Qed.

(** A slice of a sequence never raises, and picks the positions of the
    normalized slice. *)
Lemma getitem_slice_ok {A} (base : list A) s r1 :
  getitem base (ISlice s) = Ok r1 →
  ∃ r0 l1, indices s (len base) = Ok r0
           ∧ traverse (item base) (range_elems r0) = Ok l1
           ∧ r1 = Seq l1 ∧ len l1 = range_len r0.
Proof.
  simpl. destruct (indices s (len base)) as [r0|e]; [simpl|done].
  destruct (traverse (item base) (range_elems r0)) as [l1|e] eqn:Hl1; [simpl|done].
  intros [= <-]. exists r0, l1. split; [done|]. split; [done|]. split; [done|].
  rewrite <- range_elems_length. unfold len.
  by rewrite (traverse_length _ _ _ Hl1).
Qed.

Lemma getitem_compose_slice_slice {A} (base : list A) s n r1 r2 :
  getitem base (ISlice s) = Ok r1 →
  getitem (elems r1) (ISlice n) = Ok r2 →
  ∃ c, _resolve_idx_slice_slice s n (len base) = Ok c
       ∧ getitem base (ISlice c) = Ok r2.
Proof.
  intros (r0 & l1 & Hr0 & Hl1 & -> & Hlen1)%getitem_slice_ok.
  intros (rn & l2 & Hrn & Hl2 & -> & Hlen2)%getitem_slice_ok. simpl in *.
  rewrite Hlen1 in Hrn.
  pose proof (indices_step _ _ _ Hr0) as Hs0.
  rewrite _resolve_idx_slice_slice_eq, Hr0. simpl.
  destruct (range_getslice r0 n) as [r|e] eqn:Hr; simpl.
  2:{ unfold range_getslice in Hr. by rewrite Hrn in Hr. }
  destruct (range_getslice_spec _ _ _ Hs0 Hr) as (rn' & Hrn' & Hs & Hlen & Hitem).
  rewrite Hrn in Hrn'. injection Hrn' as <-.
  assert (Hl0 : 0 <= len base) by (unfold len; lia).
  destruct (range_to_slice_indices r (len base) Hs Hl0) as (rf & Hrf & Hel).
  { intros i Hi. rewrite Hitem.
    apply (indices_in_bounds _ _ _ _ Hl0 Hr0).
    apply (indices_in_bounds n (range_len r0) rn); [apply range_len_nonneg|done|lia]. }
  eexists; split; [done|].
  rewrite Hrf; simpl. rewrite Hel.
  assert (Hr_el : range_elems r = map (range_item r0) (range_elems rn)).
  { unfold range_elems. rewrite Hlen, <- list_fmap_compose.
    apply list_fmap_ext. intros _ i _. simpl. apply Hitem. }
  rewrite Hr_el, traverse_map.
  erewrite (traverse_impl (item l1)); [done| |exact Hl2].
  intros p y _ [Hp Hy]%item_ok. simpl.
  destruct (traverse_lookup_inv _ _ _ _ _ Hl1 Hy) as (x & Hx & Hbx).
  assert (Hpn : Z.of_nat (Z.to_nat p) < range_len r0).
  { apply lookup_lt_Some in Hx. pose proof (range_elems_length r0).
    unfold len in *. lia. }
  rewrite range_elems_lookup in Hx by done. injection Hx as <-.
  by rewrite Z2Nat.id in Hbx by lia.
Qed.

(** A slice followed by something else: the slice is expanded with
    [np.arange], whose entries are positions on the axis. *)
Lemma getitem_slice_as_arr {A} (base : list A) s r1 :
  getitem base (ISlice s) = Ok r1 →
  ∃ r0, indices s (len base) = Ok r0
        ∧ traverse (int_item base) (range_elems r0) = Ok (elems r1).
Proof.
  intros (r0 & l1 & Hr0 & Hl1 & -> & _)%getitem_slice_ok.
  exists r0. split; [done|]. simpl.
  apply (traverse_impl (item base)); [|done].
  intros x y _. apply item_int_item.
Qed.

Lemma _resolve_idx_slice_other s new l r0 :
  indices s l = Ok r0 → (∀ n, new ≠ ISlice n) →
  _resolve_idx (ISlice s) new l = as_index <$> getitem (range_elems r0) new.
Proof.
  intros Hr0 Hnew. destruct new as [n| | |]; [by destruct (Hnew n)| | |];
    unfold _resolve_idx; by rewrite Hr0.
Qed.

(** *** Index composition is correct *)

(** C2. Indexing a sequence by [old] and the result by [new] selects the
    same elements as indexing it once by [_resolve_idx old new] over the
    length of the sequence, for slices, boolean masks, integer arrays and
    integer scalars, whenever both indexing steps are valid.  A boolean
    [old] is handled as the strictly increasing array of its true
    positions, and the mask [T,F,T,T,F] composed with [1] gives position
    [2]. *)
Theorem resolve_idx_correct {A} (base : list A) (old new : index) (r1 r2 : sel A) :
  getitem base old = Ok r1 →
  getitem (elems r1) new = Ok r2 →
  (∃ c, _resolve_idx old new (len base) = Ok c ∧ getitem base c = Ok r2)
  ∧ (∀ mask, old = IBool mask →
       _resolve_idx old new (len base)
       = _resolve_idx (IArr (np_where mask)) new (len base)
       ∧ StronglySorted Z.lt (np_where mask)
       ∧ ∀ k, k ∈ np_where mask ↔ 0 <= k ∧ mask !! Z.to_nat k = Some true)
  ∧ _resolve_idx (IBool [true; false; true; true; false]) (IInt 1) 5
    = Ok (IInt 2).
Proof.
  intros H1 H2. split; [|split; [|reflexivity]].
  - destruct old as [s|mask|a|k].
    + destruct new as [n|m|js|j].
      * destruct (getitem_compose_slice_slice _ _ _ _ _ H1 H2) as (c & Hc & Hb).
        exists (ISlice c). simpl. by rewrite Hc.
      * destruct (getitem_slice_as_arr _ _ _ H1) as (r0 & Hr0 & Hl1).
        destruct (getitem_compose_arr _ _ _ _ _ Hl1 H2) as (c & Hc & Hb).
        exists (as_index c).
        rewrite (_resolve_idx_slice_other _ _ _ _ Hr0), Hc by done. done.
      * destruct (getitem_slice_as_arr _ _ _ H1) as (r0 & Hr0 & Hl1).
        destruct (getitem_compose_arr _ _ _ _ _ Hl1 H2) as (c & Hc & Hb).
        exists (as_index c).
        rewrite (_resolve_idx_slice_other _ _ _ _ Hr0), Hc by done. done.
      * destruct (getitem_slice_as_arr _ _ _ H1) as (r0 & Hr0 & Hl1).
        destruct (getitem_compose_arr _ _ _ _ _ Hl1 H2) as (c & Hc & Hb).
        exists (as_index c).
        rewrite (_resolve_idx_slice_other _ _ _ _ Hr0), Hc by done. done.
    + simpl in H1. destruct (decide (length mask = length base)) as [Hlen|]; [|done].
      injection H1 as <-. simpl in H2.
      destruct (getitem_compose_arr _ _ _ _ _ (np_where_traverse base mask Hlen) H2)
        as (c & Hc & Hb).
      exists (as_index c). simpl. by rewrite Hc.
    + simpl in H1. destruct (traverse (int_item base) a) as [l1|e] eqn:Hl1; [|done].
      injection H1 as <-. simpl in H2.
      destruct (getitem_compose_arr _ _ _ _ _ Hl1 H2) as (c & Hc & Hb).
      exists (as_index c). simpl. by rewrite Hc.
    + simpl in H1. destruct (int_item base k) as [x|e] eqn:Hx; [|done].
      injection H1 as <-. simpl in H2.
      assert (Hl1 : traverse (int_item base) [k] = Ok [x]) by (simpl; by rewrite Hx).
      destruct (getitem_compose_arr _ _ _ _ _ Hl1 H2) as (c & Hc & Hb).
      exists (as_index c). simpl in *. by rewrite Hc.
  - intros mask ->. split; [reflexivity|]. split.
    + apply where_from_sorted.
    + apply np_where_spec.
Qed.

Lemma resolve_idx_correct_witness :
  ∃ c, _resolve_idx (IBool [true; false; true; true; false]) (IInt 1)
                    (len [10; 20; 30; 40; 50]) = Ok c
       ∧ getitem [10; 20; 30; 40; 50] c = Ok (Scalar 30).
Proof.
  exact (proj1 (resolve_idx_correct [10; 20; 30; 40; 50]
                  (IBool [true; false; true; true; false]) (IInt 1)
                  (Seq [10; 30; 40]) (Scalar 30) eq_refl eq_refl)).
Defined.

(** *** The slice form of a composed slice *)

(** C5, as stated, fails on an empty range with a negative stop: the
    reversed axis of length 5 sliced by [10:20] is [range(-1, -1, -1)], and
    the result is [slice(-1, -1, -1)], with a literal negative stop. *)
Lemma slice_slice_stop_clauses_counterexample :
  _resolve_idx_slice_slice (Slice None None (Some (-1)))
                           (Slice (Some 10) (Some 20) None) 5
  = Ok (Slice (Some (-1)) (Some (-1)) (Some (-1)))
  ∧ ¬ slice_slice_stop_clauses (Slice None None (Some (-1)))
                               (Slice (Some 10) (Some 20) None) 5.
Proof.
  split; [reflexivity|].
  intros (r0 & r & c & Hr0 & Hr & Hc & _ & Hneg).
  vm_compute in Hr0. injection Hr0 as <-.
  vm_compute in Hr. injection Hr as <-.
  vm_compute in Hc. injection Hc as <-.
  simpl in Hneg. by specialize (Hneg eq_refl).
Qed.

(** C5, amended. For slices with non-zero steps over an axis of length
    [l], composition returns a slice built from the range
    [r = range( *old.indices(l))[new]]: start and step are those of [r];
    the stop is the start when [r] is empty, open when [r] is non-empty
    with a negative stop, and the stop of [r] otherwise.  The slice
    denotes the positions of [r] over every axis of length at least [l]. *)
Theorem slice_slice_returns_slice (old new : pyslice) (l : Z) :
  sl_step old ≠ Some 0 → sl_step new ≠ Some 0 → 0 <= l →
  ∃ r0 r c,
    indices old l = Ok r0 ∧ range_getslice r0 new = Ok r
    ∧ _resolve_idx_slice_slice old new l = Ok c
    ∧ _resolve_idx (ISlice old) (ISlice new) l = Ok (ISlice c)
    ∧ sl_start c = Some (r_start r) ∧ sl_step c = Some (r_step r)
    ∧ (range_len r = 0 → sl_stop c = Some (r_start r))
    ∧ (range_len r ≠ 0 → r_stop r < 0 → sl_stop c = None)
    ∧ (range_len r ≠ 0 → 0 <= r_stop r → sl_stop c = Some (r_stop r))
    ∧ ∀ l', l <= l' →
        ∃ rf, indices c l' = Ok rf ∧ range_elems rf = range_elems r.
Proof.
  intros Hold Hnew Hl.
  destruct (indices_ok old l Hold Hl) as (r0 & Hr0 & Hs0).
  destruct (indices_ok new (range_len r0) Hnew (range_len_nonneg r0))
    as (rn & Hrn & Hsn).
  assert (Hr : ∃ r, range_getslice r0 new = Ok r).
  { unfold range_getslice. rewrite Hrn. by eexists. }
  destruct Hr as [r Hr].
  destruct (range_getslice_spec _ _ _ Hs0 Hr) as (rn' & Hrn' & Hs & Hlen & Hitem).
  rewrite Hrn in Hrn'. injection Hrn' as <-.
  exists r0, r, (range_to_slice r).
  assert (Hc : _resolve_idx_slice_slice old new l = Ok (range_to_slice r)).
  { rewrite _resolve_idx_slice_slice_eq, Hr0. simpl. by rewrite Hr. }
  split; [done|]. split; [done|]. split; [done|].
  split; [simpl; by rewrite Hc|].
  split; [done|]. split; [done|]. unfold range_to_slice; simpl.
  split; [by intros ->|].
  split.
  { intros Hne Hneg. destruct (Z.eqb_spec (range_len r) 0); [done|].
    by destruct (Z.ltb_spec (r_stop r) 0); [|lia]. }
  split.
  { intros Hne Hpos. destruct (Z.eqb_spec (range_len r) 0); [done|].
    by destruct (Z.ltb_spec (r_stop r) 0); [lia|]. }
  intros l' Hl'. apply range_to_slice_indices; [done|lia|].
  intros i Hi. rewrite Hitem.
  assert (0 <= range_item r0 (range_item rn i) < l); [|lia].
  apply (indices_in_bounds _ _ _ _ Hl Hr0).
  apply (indices_in_bounds new (range_len r0) rn); [apply range_len_nonneg|done|lia].
Qed.

Lemma slice_slice_returns_slice_witness :
  ∃ r0 r c,
    indices (Slice (Some 2) (Some 8) (Some 2)) 10 = Ok r0
    ∧ range_getslice r0 (Slice (Some 5) (Some 5) None) = Ok r
    ∧ _resolve_idx_slice_slice (Slice (Some 2) (Some 8) (Some 2))
                               (Slice (Some 5) (Some 5) None) 10 = Ok c
    ∧ _resolve_idx (ISlice (Slice (Some 2) (Some 8) (Some 2)))
                   (ISlice (Slice (Some 5) (Some 5) None)) 10 = Ok (ISlice c)
    ∧ sl_start c = Some (r_start r) ∧ sl_step c = Some (r_step r)
    ∧ (range_len r = 0 → sl_stop c = Some (r_start r))
    ∧ (range_len r ≠ 0 → r_stop r < 0 → sl_stop c = None)
    ∧ (range_len r ≠ 0 → 0 <= r_stop r → sl_stop c = Some (r_stop r))
    ∧ ∀ l', 10 <= l' →
        ∃ rf, indices c l' = Ok rf ∧ range_elems rf = range_elems r.
Proof.
  apply (slice_slice_returns_slice (Slice (Some 2) (Some 8) (Some 2))
           (Slice (Some 5) (Some 5) None) 10); [discriminate|discriminate|lia].
Defined.

End IdxFacts.

(** * Properties of the copy-on-write views *)

Module CowFacts.
Import Cow.

(** *** Stepping through computations *)

Lemma bind_inv {A B} (m : M A) (k : A → M B) σ r σ' :
  bind m k σ = (r, σ') →
  (∃ a σ1, m σ = (Ok a, σ1) ∧ k a σ1 = (r, σ'))
  ∨ (∃ e, m σ = (Raise e, σ') ∧ r = Raise e).
Proof.
  unfold bind. destruct (m σ) as [[a|e] σ1].
  - intros H. left. by exists a, σ1.
  - intros [= <- <-]. right. by exists e.
Qed.

Lemma bind_ok {A B} (m : M A) (k : A → M B) σ a σ1 :
  m σ = (Ok a, σ1) → bind m k σ = k a σ1.
Proof. unfold bind. by intros ->. Qed.

Lemma bind_raise {A B} (m : M A) (k : A → M B) σ e σ1 :
  m σ = (Raise e, σ1) → bind m k σ = (Raise e, σ1).
Proof. unfold bind. by intros ->. Qed.

Lemma pure_ret {A} (a : A) : pure (ret a).
Proof. by intros σ r σ' [= _ <-]. Qed.

Lemma pure_raise {A} e : pure (@raise A e).
Proof. by intros σ r σ' [= _ <-]. Qed.

Lemma pure_lift {A} (x : result A) : pure (lift x).
Proof. by intros σ r σ' [= _ <-]. Qed.

Lemma pure_bind {A B} (m : M A) (k : A → M B) :
  pure m → (∀ a, pure (k a)) → pure (bind m k).
Proof.
  intros Hm Hk σ r σ' [(a & σ1 & H1 & H2)|(e & H1 & _)]%bind_inv.
  - apply Hm in H1 as ->. by apply Hk in H2.
  - by apply Hm in H1.
Qed.

Lemma pure_read d : pure (read d).
Proof.
  intros σ r σ'. unfold read. by destruct (cells σ !! d.1); intros [= _ <-].
Qed.

Lemma pure_getattr a name : pure (getattr a name).
Proof.
  intros σ r σ'. unfold getattr. destruct (adatas σ !! a) as [ad|].
  - by destruct (find _ (attrs ad)) as [[? ?]|]; intros [= _ <-].
  - by intros [= _ <-].
Qed.

Lemma pure_getitem d k : pure (getitem d k).
Proof.
  unfold getitem. apply pure_bind; [apply pure_read|]. intros t.
  apply pure_bind; [apply pure_lift|]. intros _. apply pure_ret.
Qed.

Lemma pure_reduce_getitem ks : ∀ d, pure (reduce getitem ks d).
Proof.
  induction ks as [|k ks IH]; intros d; simpl; [apply pure_ret|].
  apply pure_bind; [apply pure_getitem | apply IH].
Qed.

Lemma pure_plain_at d : pure (plain_at d).
Proof.
  unfold plain_at. apply pure_bind; [apply pure_read|]. intros t. apply pure_ret.
Qed.

Lemma pure_observe a name p : pure (observe a name p).
Proof.
  unfold observe. apply pure_bind; [apply pure_getattr|]. intros d. apply pure_read.
Qed.

(** *** Cursors *)

Lemma getitem_cursor d k σ d' σ' :
  getitem d k σ = (Ok d', σ') → d' = (d.1, d.2 ++ [k]).
Proof.
  unfold getitem.
  intros [(t & σ1 & _ & [(u & σ2 & _ & H)|(e & _ & ?)]%bind_inv)|(e & _ & ?)]%bind_inv;
    [|done|done].
  by injection H as <- _.
Qed.

Lemma reduce_getitem_cursor ks : ∀ d σ d' σ',
  reduce getitem ks d σ = (Ok d', σ') → d' = (d.1, d.2 ++ ks).
Proof.
  induction ks as [|k ks IH]; intros d σ d' σ'; simpl.
  - intros [= <- _]. rewrite app_nil_r. by destruct d.
  - intros [(d1 & σ1 & H1 & H2)|(e & _ & ?)]%bind_inv; [|done].
    apply getitem_cursor in H1 as ->. apply IH in H2 as ->. simpl.
    by rewrite <- app_assoc.
Qed.

Lemma plain_at_data d σ o σ' :
  plain_at d σ = (Ok o, σ') → data o = d ∧ _view_args o = None.
Proof.
  unfold plain_at.
  intros [(t & σ1 & _ & H)|(e & _ & ?)]%bind_inv; [|done].
  by injection H as <- _.
Qed.

Lemma getattr_ok a name σ d σ' :
  getattr a name σ = (Ok d, σ') →
  ∃ ad c, adatas σ !! a = Some ad ∧ (name, c) ∈ attrs ad ∧ d = (c, []).
Proof.
  unfold getattr. destruct (adatas σ !! a) as [ad|]; [|done].
  destruct (find _ (attrs ad)) as [[n c]|] eqn:Hf; [|done].
  intros [= <- _]. exists ad, c. split; [done|]. split; [|done].
  apply find_some in Hf as [Hin Hn]. apply bool_decide_eq_true in Hn.
  simpl in Hn. subst n. by apply list_elem_of_In.
Qed.

(** *** The copy of the root *)

(** [AnnData.copy] only appends cells, and binds every attribute of the
    copy to one of the new cells, with the contents of the original. *)
Lemma copy_attrs_spec cs l cs' l' :
  copy_attrs cs l = Ok (cs', l') →
  ∃ ts, cs' = cs ++ ts
        ∧ l' = zip (l.*1) (seq (length cs) (length ts))
        ∧ length ts = length l
        ∧ ∀ i n c, l !! i = Some (n, c) →
                   l' !! i = Some (n, length cs + i)
                   ∧ ∃ t, cs !! c = Some t ∧ cs' !! (length cs + i) = Some t.
Proof.
  unfold copy_attrs.
  destruct (traverse _ l) as [ts|e] eqn:Hts; [|done]. simpl.
  intros [= <- <-]. exists ts.
  pose proof (traverse_length _ _ _ Hts) as Hlen.
  split; [done|]. split; [done|]. split; [done|].
  intros i n c Hi.
  destruct (traverse_lookup _ _ _ _ _ Hts Hi) as (t & Ht & Hc). simpl in Hc.
  split.
  - apply lookup_zip_with_Some. exists n, (length cs + i). split; [done|].
    split; [by rewrite list_lookup_fmap, Hi|].
    apply lookup_seq. split; [done|]. apply lookup_lt_Some in Ht. lia.
  - destruct (cs !! c) as [u|]; [|done]. injection Hc as ->.
    exists t. split; [done|]. by rewrite lookup_app_r, Nat.add_sub' by lia.
Qed.

Lemma copy_attrs_fresh cs l cs' l' n c :
  copy_attrs cs l = Ok (cs', l') → (n, c) ∈ l' → length cs ≤ c < length cs'.
Proof.
  intros (ts & -> & -> & _)%copy_attrs_spec Hin.
  apply elem_of_zip_r, elem_of_seq in Hin. rewrite length_app. lia.
Qed.

Lemma AnnData_copy_ok a σ new σ' :
  AnnData_copy a σ = (Ok new, σ') →
  ∃ ad ts l',
    adatas σ !! a = Some ad
    ∧ copy_attrs (cells σ) (attrs ad) = Ok (cells σ ++ ts, l')
    ∧ new = length (adatas σ)
    ∧ σ' = Store (cells σ ++ ts) (adatas σ ++ [AnnData l' None])
                 (trace σ ++ [Copied a new]).
Proof.
  unfold AnnData_copy. destruct (adatas σ !! a) as [ad|]; [|done].
  destruct (copy_attrs _ _) as [[cs' l']|e] eqn:Hc; [|done].
  intros [= <- <-].
  destruct (copy_attrs_spec _ _ _ _ Hc) as (ts & -> & _).
  by exists ad, ts, l'.
Qed.

Lemma AnnData_copy_raise a σ e σ' : AnnData_copy a σ = (Raise e, σ') → σ' = σ.
Proof.
  unfold AnnData_copy. destruct (adatas σ !! a) as [ad|]; [|by intros [= _ <-]].
  destruct (copy_attrs _ _) as [[cs' l']|e']; [done|by intros [= _ <-]].
Qed.

(** *** In-place operations *)

Lemma cell_update_spec d f σ r σ' :
  cell_update d f σ = (r, σ') →
  adatas σ' = adatas σ ∧ trace σ' = trace σ
  ∧ length (cells σ') = length (cells σ)
  ∧ ∀ c, c ≠ d.1 → cells σ' !! c = cells σ !! c.
Proof.
  unfold cell_update. destruct (cells σ !! d.1) as [t|]; [|by intros [= _ <-]].
  destruct (tree_update d.2 f t) as [t'|e]; [|by intros [= _ <-]].
  intros [= _ <-]. simpl. split; [done|]. split; [done|].
  split; [apply length_insert|]. intros c Hc. by apply list_lookup_insert_ne.
Qed.

Lemma _init_as_actual_spec self new σ r σ' :
  _init_as_actual self new σ = (r, σ') →
  cells σ' = cells σ
  ∧ length (adatas σ') = length (adatas σ)
  ∧ (∀ a, a ≠ self → adatas σ' !! a = adatas σ !! a)
  ∧ (∀ e, r = Raise e → σ' = σ)
  ∧ (r = Ok tt →
     ∃ n, adatas σ !! new = Some n
          ∧ adatas σ' !! self = Some (AnnData (attrs n) None)
          ∧ trace σ' = trace σ ++ [InitAsActual self new]).
Proof.
  unfold _init_as_actual.
  destruct (adatas σ !! self) as [s|] eqn:Hs.
  - destruct (adatas σ !! new) as [n|] eqn:Hn.
    + intros [= <- <-]. simpl. split; [done|]. split; [apply length_insert|].
      split; [intros a Ha; by apply list_lookup_insert_ne|].
      split; [done|]. intros _. exists n. split; [done|]. split; [|done].
      apply list_lookup_insert_eq. by apply lookup_lt_Some in Hs.
    + intros [= <- <-]. by repeat split.
  - intros [= <- <-]. by repeat split.
Qed.

(** *** Entering the scoped materialization *)

Lemma _update_enter_ok self ref σ locals container σ1 :
  _view_args self = Some ref →
  before_yield (_update self) σ = (Ok (locals, container), σ1) →
  ∃ ad ts l' c,
    adatas σ !! parent ref = Some ad
    ∧ copy_attrs (cells σ) (attrs ad) = Ok (cells σ ++ ts, l')
    ∧ locals = (parent ref, length (adatas σ))
    ∧ σ1 = Store (cells σ ++ ts) (adatas σ ++ [AnnData l' None])
                 (trace σ ++ [Copied (parent ref) (length (adatas σ))])
    ∧ (attrname ref, c) ∈ l'
    ∧ length (cells σ) ≤ c < length (cells σ ++ ts)
    ∧ data container = (c, keys ref) ∧ _view_args container = None.
Proof.
  intros Hv. simpl. rewrite Hv. destruct ref as [adata_view attr_name ks]. simpl.
  intros [(new & σa & Hcopy & H)|(e & _ & ?)]%bind_inv; [|done].
  apply bind_inv in H as [(attr & σb & Hattr & H)|(e & _ & ?)]; [|done].
  apply bind_inv in H as [(d & σc & Hred & H)|(e & _ & ?)]; [|done].
  apply bind_inv in H as [(o & σd & Hplain & H)|(e & _ & ?)]; [|done].
  injection H as <- <- <-.
  pose proof (pure_getattr _ _ _ _ _ Hattr) as ->.
  pose proof (pure_reduce_getitem _ _ _ _ _ Hred) as ->.
  pose proof (pure_plain_at _ _ _ _ Hplain) as ->.
  apply AnnData_copy_ok in Hcopy as (ad & ts & l' & Had & Hc & -> & ->).
  apply getattr_ok in Hattr as (nd & c & Hnd & Hin & ->). simpl in Hnd.
  rewrite lookup_app_r, Nat.sub_diag in Hnd by done. injection Hnd as <-.
  simpl in Hin.
  apply reduce_getitem_cursor in Hred as ->. simpl in Hplain.
  apply plain_at_data in Hplain as [Hd Hn].
  exists ad, ts, l', c. repeat (split; [done|]).
  split; [by eapply copy_attrs_fresh|done].
Qed.

(** When entering raises, the root is as it was; at most the copy has
    been added. *)
Lemma _update_enter_raise self σ e σ1 :
  before_yield (_update self) σ = (Raise e, σ1) →
  σ1 = σ
  ∨ ∃ a ts nd, σ1 = Store (cells σ ++ ts) (adatas σ ++ [nd])
                          (trace σ ++ [Copied a (length (adatas σ))]).
Proof.
  simpl. destruct (_view_args self) as [[adata_view attr_name ks]|];
    [|intros [= _ <-]; by left].
  intros [(new & σa & Hcopy & H)|(e' & Hcopy & _)]%bind_inv.
  2:{ left. by apply AnnData_copy_raise in Hcopy. }
  right. apply AnnData_copy_ok in Hcopy as (ad & ts & l' & Had & Hc & -> & ->).
  assert (σ1 = Store (cells σ ++ ts) (adatas σ ++ [AnnData l' None])
                     (trace σ ++ [Copied adata_view (length (adatas σ))])) as ->.
  { revert H. apply (pure_bind _ _ (pure_getattr _ _)). intros attr.
    apply (pure_bind _ _ (pure_reduce_getitem _ _)). intros d.
    apply (pure_bind _ _ (pure_plain_at _)). intros o. apply pure_ret. }
  by exists adata_view, ts, (AnnData l' None).
Qed.

(** *** What a run preserves *)

Lemma preserved_refl {A} (l : list A) : preserved l l.
Proof. by intros i x. Qed.

Lemma preserved_trans {A} (l1 l2 l3 : list A) :
  preserved l1 l2 → preserved l2 l3 → preserved l1 l3.
Proof. intros H12 H23 i x Hi. by apply H23, H12. Qed.

Lemma preserved_app {A} (l k : list A) : preserved l (l ++ k).
Proof. intros i x Hi. by apply lookup_app_l_Some. Qed.

(** A write to a cell beyond [l] preserves [l]. *)
Lemma preserved_outside {A} (l l1 l2 : list A) c :
  preserved l l1 → length l ≤ c →
  (∀ i, i ≠ c → l2 !! i = l1 !! i) → preserved l l2.
Proof.
  intros H1 Hc H2 i x Hi. rewrite H2; [by apply H1|].
  apply lookup_lt_Some in Hi. lia.
Qed.

Lemma read_preserved d σ σ' t :
  preserved (cells σ) (cells σ') →
  (read d σ).1 = Ok t → (read d σ').1 = Ok t.
Proof.
  intros Hp. unfold read.
  destruct (cells σ !! d.1) as [u|] eqn:Hu; [|done].
  by rewrite (Hp _ _ Hu).
Qed.

Lemma observe_preserved a name p σ σ' t :
  preserved (cells σ) (cells σ') → preserved (adatas σ) (adatas σ') →
  (observe a name p σ).1 = Ok t → (observe a name p σ').1 = Ok t.
Proof.
  intros Hc Ha. unfold observe, bind, getattr.
  destruct (adatas σ !! a) as [ad|] eqn:Had; [|done].
  rewrite (Ha _ _ Had).
  destruct (find _ (attrs ad)) as [[n c]|]; [|done].
  by apply read_preserved.
Qed.

(** *** Isolation *)

(** Entering and running an in-place operation [f] on the yielded
    container: nothing that existed before is written. *)
Lemma enter_update_preserves self ref σ locals container σ1 f r σ2 :
  _view_args self = Some ref →
  before_yield (_update self) σ = (Ok (locals, container), σ1) →
  cell_update (data container) f σ1 = (r, σ2) →
  locals = (parent ref, length (adatas σ))
  ∧ length (cells σ) ≤ (data container).1
  ∧ (∃ nd, adatas σ2 !! length (adatas σ) = Some nd
           ∧ (attrname ref, (data container).1) ∈ attrs nd)
  ∧ preserved (cells σ) (cells σ2)
  ∧ preserved (adatas σ) (adatas σ2)
  ∧ is_Some (adatas σ !! parent ref)
  ∧ trace σ2 = trace σ ++ [Copied (parent ref) (length (adatas σ))].
Proof.
  intros Hv Henter Hbody.
  destruct (_update_enter_ok _ _ _ _ _ _ Hv Henter)
    as (ad & ts & l' & c & Had & Hcopy & -> & -> & Hin & Hc & Hd & _).
  apply cell_update_spec in Hbody as (Ha2 & Ht2 & _ & Hother).
  rewrite Hd in *. simpl in *.
  split; [done|]. split; [lia|]. split.
  { exists (AnnData l' None). rewrite Ha2. split; [|done].
    by rewrite lookup_app_r, Nat.sub_diag. }
  split.
  { eapply (preserved_outside _ _ _ c); [apply preserved_app|lia|done]. }
  split; [rewrite Ha2; apply preserved_app|].
  split; [by exists ad|done].
Qed.

(** C1. An item assignment on a view with a descriptor writes only to a
    container of a fresh copy of the root.  Up to the commit, every cell
    and every AnnData object of the store is as it was, so whatever was
    observable through the root, through any other AnnData object or
    through the storage of any other view is unchanged.  After the whole
    call the cells are still as they were, and so is every AnnData object
    but the root, which the commit rebinds. *)
Theorem setitem_isolation (self : pyobj) (ref : ElementRef) (idx : key)
    (value : tree) (σ : store) :
  _view_args self = Some ref →
  (∀ u σw locals container σ1 r σ2,
     warn "ImplicitModificationWarning" (modification_message (attrname ref)) σ
     = (Ok u, σw) →
     before_yield (_update self) σw = (Ok (locals, container), σ1) →
     native_setitem container idx value σ1 = (r, σ2) →
     locals = (parent ref, length (adatas σ))
     ∧ (∃ nd, adatas σ2 !! length (adatas σ) = Some nd
              ∧ (attrname ref, (data container).1) ∈ attrs nd)
     ∧ length (cells σ) ≤ (data container).1
     ∧ preserved (cells σ) (cells σ2)
     ∧ preserved (adatas σ) (adatas σ2)
     ∧ (∀ a name p t, (observe a name p σ).1 = Ok t → (observe a name p σ2).1 = Ok t)
     ∧ (∀ v t, (read (data v) σ).1 = Ok t → (read (data v) σ2).1 = Ok t))
  ∧ (∀ r σ',
       __setitem__ self idx value σ = (r, σ') →
       preserved (cells σ) (cells σ')
       ∧ (∀ a ad, a ≠ parent ref → adatas σ !! a = Some ad → adatas σ' !! a = Some ad)
       ∧ (∀ v t, (read (data v) σ).1 = Ok t → (read (data v) σ').1 = Ok t)).
Proof.
  intros Hv. split.
  - intros u σw locals container σ1 r σ2 Hw Henter Hbody.
    injection Hw as _ <-.
    destruct (enter_update_preserves _ _ _ _ _ _ _ _ _ Hv Henter Hbody)
      as (Hl & Hfresh & Hnd & Hc & Ha & _).
    change (preserved (cells σ) (cells σ2)) in Hc.
    change (preserved (adatas σ) (adatas σ2)) in Ha.
    repeat (split; [done|]).
    split; [intros a name p t; by apply observe_preserved|].
    intros v t. by apply read_preserved.
  - intros r σ'. unfold __setitem__. rewrite Hv.
    intros [(u & σw & Hw & Hwith)|(e & Hw & _)]%bind_inv; [|done].
    injection Hw as _ <-.
    assert (Hgoal : preserved (cells σ) (cells σ')
                    ∧ ∀ a ad, a ≠ parent ref → adatas σ !! a = Some ad →
                              adatas σ' !! a = Some ad).
    { unfold with_ in Hwith.
      apply bind_inv in Hwith
          as [([locals container] & σ1 & Henter & Hrest)|(e & Henter & _)].
      - destruct (native_setitem container idx value σ1) as [rb σ2] eqn:Hbody.
        destruct (enter_update_preserves _ _ _ _ _ _ _ _ _ Hv Henter Hbody)
          as (-> & Hfresh & Hnd & Hc & Ha & _).
        change (preserved (cells σ) (cells σ2)) in Hc.
        change (preserved (adatas σ) (adatas σ2)) in Ha.
        destruct rb as [[]|e].
        + assert (Hexit : ∃ re, _init_as_actual (parent ref) (length (adatas σ)) σ2
                                = (re, σ')).
          { apply bind_inv in Hrest as [(u' & σ3 & Hexit & Hret)|(e & Hexit & _)].
            - injection Hret as _ <-. by eexists.
            - by eexists. }
          destruct Hexit as [re Hexit].
          apply _init_as_actual_spec in Hexit as (Hcells & _ & Hother & _).
          split; [by rewrite Hcells|].
          intros a ad' Hne Hlook. rewrite Hother by done. by apply Ha.
        + injection Hrest as _ <-. split; [done|]. intros a ad' _. apply Ha.
      - apply _update_enter_raise in Henter as [->|(a & ts & nd & ->)]; simpl.
        + split; [apply preserved_refl|]. by intros a ad _.
        + split; [apply preserved_app|]. intros a' ad _. apply preserved_app. }
    destruct Hgoal as [Hc Ha]. split; [done|]. split; [done|].
    intros v t. by apply read_preserved.
Qed.

Lemma setitem_isolation_witness :
  (∃ σ2, native_setitem (PyObj ndarray (4, [KStr "pca"]) None) (KInt 0) (Leaf 9)
           (Store (cells example_store
                     ++ [Node ndarray [(KInt 0, Leaf 1); (KInt 1, Leaf 2)];
                         Node dict [(KStr "pca", Node ndarray [(KInt 0, Leaf 5)])];
                         Node DataFrame [(KStr "a", Leaf 3); (KStr "b", Leaf 4)]])
                  (adatas example_store
                     ++ [AnnData [("X", 3); ("obsm", 4); ("obs", 5)] None])
                  [Warned "ImplicitModificationWarning"
                          (modification_message "obsm"); Copied 1 2])
         = (Ok tt, σ2)
         ∧ preserved (cells example_store) (cells σ2)
         ∧ preserved (adatas example_store) (adatas σ2))
  ∧ preserved (cells example_store)
      (cells (__setitem__ example_view (KInt 0) (Leaf 9) example_store).2)
  ∧ (∀ v t, (read (data v) example_store).1 = Ok t →
            (read (data v)
               (__setitem__ example_view (KInt 0) (Leaf 9) example_store).2).1
            = Ok t).
Proof.
  destruct (setitem_isolation example_view example_ref (KInt 0) (Leaf 9)
              example_store eq_refl) as [H1 H2].
  destruct (H1 tt _ (1, 2) (PyObj ndarray (4, [KStr "pca"]) None) _ (Ok tt) _
              eq_refl eq_refl eq_refl) as (_ & _ & _ & Hc1 & Ha1 & _).
  destruct (H2 (Ok tt) (__setitem__ example_view (KInt 0) (Leaf 9) example_store).2
              eq_refl) as (Hc & _ & Hv).
  split; [eexists; split; [reflexivity|split; [exact Hc1 | exact Ha1]]|].
  split; [exact Hc | exact Hv].
Defined.

(** *** Leaving the scoped materialization *)

Lemma _init_as_actual_ok self new σ s n :
  adatas σ !! self = Some s → adatas σ !! new = Some n →
  _init_as_actual self new σ
  = (Ok tt, Store (cells σ) (<[self := AnnData (attrs n) None]> (adatas σ))
                  (trace σ ++ [InitAsActual self new])).
Proof. intros Hs Hn. unfold _init_as_actual. by rewrite Hs, Hn. Qed.

(** The outcome of [with self._update() as c: <in-place f on c>], once
    the scope is entered: on a normal exit of the body the root is
    re-initialized from the copy; when the body raises, the exception
    leaves the [with] statement and the root is not touched. *)
Lemma with_update_outcome self ref f σ locals container σ1 rb σ2 :
  _view_args self = Some ref →
  before_yield (_update self) σ = (Ok (locals, container), σ1) →
  cell_update (data container) f σ1 = (rb, σ2) →
  let new := length (adatas σ) in
  match rb with
  | Ok _ =>
      ∃ nd,
        adatas σ2 !! new = Some nd
        ∧ (attrname ref, (data container).1) ∈ attrs nd
        ∧ with_ (_update self) (λ c, cell_update (data c) f) σ
          = (Ok tt, Store (cells σ2)
                          (<[parent ref := AnnData (attrs nd) None]> (adatas σ2))
                          (trace σ ++ [Copied (parent ref) new;
                                       InitAsActual (parent ref) new]))
        ∧ parent ref < length (adatas σ2)
  | Raise e =>
      with_ (_update self) (λ c, cell_update (data c) f) σ = (Raise e, σ2)
      ∧ adatas σ2 !! parent ref = adatas σ !! parent ref
      ∧ trace σ2 = trace σ ++ [Copied (parent ref) new]
  end.
Proof.
  intros Hv Henter Hbody new.
  destruct (enter_update_preserves _ _ _ _ _ _ _ _ _ Hv Henter Hbody)
    as (-> & Hfresh & (nd & Hnd & Hin) & Hc & Ha & [ad Had] & Htr).
  unfold with_. rewrite (bind_ok _ _ _ _ _ Henter), Hbody.
  destruct rb as [[]|e].
  - exists nd. split; [done|]. split; [done|].
    pose proof (Ha _ _ Had) as Had2.
    rewrite (bind_ok _ _ _ _ _ (_init_as_actual_ok _ _ _ _ _ Had2 Hnd)).
    unfold ret. rewrite Htr, <- app_assoc. split; [done|].
    by apply lookup_lt_Some in Had2.
  - split; [done|]. split; [|done]. rewrite Had. by apply Ha.
Qed.

(** C3, as stated, fails: an assignment out of bounds on the yielded
    array raises [IndexError]; the code after the [yield] is skipped, the
    root keeps its attributes and is still a view. *)
Lemma commits_on_every_exit_counterexample :
  (∃ σ', with_ (_update example_view)
               (λ c, native_setitem c (KInt 7) (Leaf 9)) example_store
         = (Raise IndexError, σ')
         ∧ adatas σ' !! 1 = adatas example_store !! 1
         ∧ trace σ' = [Copied 1 2])
  ∧ ¬ commits_on_every_exit example_view
        (λ c, native_setitem c (KInt 7) (Leaf 9)) example_store.
Proof.
  split; [eexists; split; [reflexivity|by split]|].
  intros H.
  destruct (H 1 2 (PyObj ndarray (4, [KStr "pca"]) None) _ _ _ eq_refl eq_refl)
    as (n & Hn & Hroot).
  vm_compute in Hn. injection Hn as <-. vm_compute in Hroot. discriminate.
Qed.

(** C3, amended. Once the scope is entered, an in-place operation [f] on
    the yielded container that returns normally is followed by the
    commit: the call returns and the root holds the attributes of the
    mutated copy and is no view any more.  When the operation raises, the
    exception propagates, no commit takes place and the root is as
    before. *)
Theorem update_commits_on_normal_exit (self : pyobj) (ref : ElementRef)
    (f : tree → result tree) (σ σ1 σ2 : store) (locals : loc * loc)
    (container : pyobj) (rb : result unit) :
  _view_args self = Some ref →
  before_yield (_update self) σ = (Ok (locals, container), σ1) →
  cell_update (data container) f σ1 = (rb, σ2) →
  ∃ σ', with_ (_update self) (λ c, cell_update (data c) f) σ = (rb, σ')
        ∧ cells σ' = cells σ2
        ∧ match rb with
          | Ok _ =>
              ∃ nd, adatas σ2 !! locals.2 = Some nd
                    ∧ adatas σ' !! parent ref = Some (AnnData (attrs nd) None)
                    ∧ trace σ' = trace σ ++ [Copied (parent ref) locals.2;
                                             InitAsActual (parent ref) locals.2]
          | Raise e =>
              σ' = σ2
              ∧ adatas σ' !! parent ref = adatas σ !! parent ref
              ∧ trace σ' = trace σ ++ [Copied (parent ref) locals.2]
          end.
Proof.
  intros Hv Henter Hbody.
  pose proof (with_update_outcome _ _ _ _ _ _ _ _ _ Hv Henter Hbody) as H.
  destruct (enter_update_preserves _ _ _ _ _ _ _ _ _ Hv Henter Hbody) as (-> & _).
  simpl in *. destruct rb as [[]|e].
  - destruct H as (nd & Hnd & _ & Hw & Hlt).
    eexists. split; [exact Hw|]. split; [done|]. exists nd. split; [done|].
    split; [|done]. simpl. by apply list_lookup_insert_eq.
  - destruct H as (Hw & Ha & Htr). exists σ2. by repeat split.
Qed.

Lemma update_commits_on_normal_exit_witness :
  ∃ σ', with_ (_update example_view)
              (λ c, cell_update (data c) (node_setitem (KInt 0) (Leaf 9)))
              example_store = (Ok tt, σ')
        ∧ adatas σ' !! 1
          = Some (AnnData [("X", 3); ("obsm", 4); ("obs", 5)] None).
Proof.
  destruct (update_commits_on_normal_exit example_view example_ref
              (node_setitem (KInt 0) (Leaf 9)) example_store _ _ (1, 2)
              (PyObj ndarray (4, [KStr "pca"]) None) (Ok tt)
              eq_refl eq_refl eq_refl) as (σ' & Hw & _ & nd & Hnd & Hroot & _).
  exists σ'. split; [exact Hw|].
  vm_compute in Hnd. injection Hnd as <-. exact Hroot.
Defined.

(** *** The interceptor *)

(** Whatever happens inside the scope, it adds no warning, and it leaves
    behind the cells of the state the body ended in. *)
Lemma with_update_trace self f σ r σ' :
  with_ (_update self) (λ c, cell_update (data c) f) σ = (r, σ') →
  ∃ rest, trace σ' = trace σ ++ rest ∧ Forall (λ ev, is_warning ev = false) rest.
Proof.
  intros Hwith. pose proof Hwith as Hw. unfold with_ in Hw.
  apply bind_inv in Hw as [([locals container] & σ1 & Henter & _)|(e & Henter & _)].
  - destruct (_view_args self) as [ref|] eqn:Hv; [|by simpl in Henter; rewrite Hv in Henter].
    destruct (cell_update (data container) f σ1) as [rb σ2] eqn:Hbody.
    pose proof (with_update_outcome _ _ _ _ _ _ _ _ _ Hv Henter Hbody) as H.
    simpl in H. destruct rb as [[]|e].
    + destruct H as (nd & _ & _ & H & _). rewrite H in Hwith.
      injection Hwith as _ <-. eexists. split; [done|]. by repeat constructor.
    + destruct H as (H & _ & Htr). rewrite H in Hwith.
      injection Hwith as _ <-. eexists. split; [done|]. by repeat constructor.
  - apply _update_enter_raise in Henter as [->|(a & ts & nd & ->)].
    + exists []. by rewrite app_nil_r.
    + eexists. split; [done|]. by repeat constructor.
Qed.

(** C4. An item assignment on an object without a descriptor is the
    native assignment on the object itself: no warning, no copy of any
    AnnData object.  With a descriptor, the call first emits the warning,
    the only one of the call, then runs the scoped materialization from
    there, whatever the warning; once the scope is entered, the assignment
    is the native assignment on the yielded container, a plain container
    of the copy. *)
Theorem setitem_dispatch (self : pyobj) (idx : key) (value : tree) (σ : store) :
  match _view_args self with
  | None =>
      __setitem__ self idx value σ = native_setitem self idx value σ
      ∧ trace (__setitem__ self idx value σ).2 = trace σ
      ∧ adatas (__setitem__ self idx value σ).2 = adatas σ
      ∧ length (cells (__setitem__ self idx value σ).2) = length (cells σ)
  | Some ref =>
      let w := Warned "ImplicitModificationWarning"
                      (modification_message (attrname ref)) in
      let σw := Store (cells σ) (adatas σ) (trace σ ++ [w]) in
      __setitem__ self idx value σ
      = with_ (_update self) (λ c, native_setitem c idx value) σw
      ∧ (∃ rest, trace (__setitem__ self idx value σ).2 = trace σ ++ w :: rest
                 ∧ Forall (λ ev, is_warning ev = false) rest)
      ∧ (∀ locals container σ1 rb σ2,
           before_yield (_update self) σw = (Ok (locals, container), σ1) →
           native_setitem container idx value σ1 = (rb, σ2) →
           (__setitem__ self idx value σ).1 = rb
           ∧ cells (__setitem__ self idx value σ).2 = cells σ2
           ∧ length (cells σ) ≤ (data container).1
           ∧ _view_args container = None)
  end.
Proof.
  destruct (_view_args self) as [ref|] eqn:Hv.
  - intros w σw.
    assert (Heq : __setitem__ self idx value σ
                  = with_ (_update self) (λ c, native_setitem c idx value) σw).
    { unfold __setitem__. by rewrite Hv. }
    split; [done|]. rewrite Heq. split.
    + destruct (with_ _ _ σw) as [r σ'] eqn:Hwith.
      destruct (with_update_trace _ _ _ _ _ Hwith) as (rest & Htr & Hrest).
      exists rest. simpl in *. by rewrite Htr, <- app_assoc.
    + intros locals container σ1 rb σ2 Henter Hbody.
      destruct (_update_enter_ok _ _ _ _ _ _ Hv Henter)
        as (ad & ts & l' & c & _ & _ & _ & _ & _ & Hc & Hd & Hn).
      pose proof (with_update_outcome _ _ _ _ _ _ _ _ _ Hv Henter Hbody) as H.
      simpl in H. change (cells σw) with (cells σ) in Hc. rewrite Hd. simpl.
      destruct rb as [[]|e].
      * destruct H as (nd & _ & _ & H & _).
        unfold native_setitem at 1 2. rewrite H. simpl.
        split; [done|]. split; [done|]. split; [lia|done].
      * destruct H as (H & _).
        unfold native_setitem at 1 2. rewrite H. simpl.
        split; [done|]. split; [done|]. split; [lia|done].
  - assert (Heq : __setitem__ self idx value σ = native_setitem self idx value σ).
    { unfold __setitem__. by rewrite Hv. }
    split; [done|]. rewrite Heq.
    destruct (native_setitem self idx value σ) as [r σ'] eqn:Hn.
    apply cell_update_spec in Hn as (Ha & Ht & Hl & _). by simpl.
Qed.

Lemma setitem_dispatch_witness :
  (__setitem__ example_view (KInt 0) (Leaf 9) example_store).1 = Ok tt
  ∧ cells (__setitem__ example_view (KInt 0) (Leaf 9) example_store).2 !! 4
    = Some (Node dict [(KStr "pca", Node ndarray [(KInt 0, Leaf 9)])]).
Proof.
  destruct (setitem_dispatch example_view (KInt 0) (Leaf 9) example_store)
    as (_ & _ & H).
  destruct (H (1, 2) (PyObj ndarray (4, [KStr "pca"]) None) _ (Ok tt) _
              eq_refl eq_refl) as (Hr & Hc & _).
  split; [exact Hr|]. by rewrite Hc.
Defined.

(** *** Copies of views *)

Lemma read_ok d σ t : (read d σ).1 = Ok t → read d σ = (Ok t, σ).
Proof.
  unfold read. destruct (cells σ !! d.1) as [u|]; simpl; [|done]. by intros ->.
Qed.

Lemma fresh_copy_ok c self σ t :
  (read (data self) σ).1 = Ok t →
  fresh_copy c self σ
  = (Ok (PyObj c (length (cells σ), []) None),
     Store (cells σ ++ [t]) (adatas σ) (trace σ)).
Proof.
  intros Hr%read_ok. unfold fresh_copy. by rewrite (bind_ok _ _ _ _ _ Hr).
Qed.

(** C6. The copy of a view of any of the five variants whose data is
    readable is a new object of the native class of the variant, on a new
    cell with the same contents, with no descriptor: an [ndarray] for a
    dense view (also through [toarray]), a [csr_matrix] or [csc_matrix]
    for the sparse views, a [dict] and a [DataFrame] for the mapping and
    table views. *)
Theorem view_copy_plain (self : pyobj) (σ : store) (t : tree) :
  cls self ∈ [ArrayView; SparseCSRView; SparseCSCView; DictView; DataFrameView] →
  (read (data self) σ).1 = Ok t →
  ∃ o, copy self σ = (Ok o, Store (cells σ ++ [t]) (adatas σ) (trace σ))
       ∧ native (cls self) = Some (cls o)
       ∧ is_view_class (cls o) = false
       ∧ _view_args o = None
       ∧ data o = (length (cells σ), [])
       ∧ (cls self = ArrayView →
          cls o = ndarray ∧ ArrayView_toarray self σ = copy self σ)
       ∧ (cls self = SparseCSRView → cls o = csr_matrix)
       ∧ (cls self = SparseCSCView → cls o = csc_matrix)
       ∧ (cls self = DictView → cls o = dict)
       ∧ (cls self = DataFrameView → cls o = DataFrame).
Proof.
  intros Hcls Hr. destruct self as [c d va]. simpl in *.
  repeat (apply elem_of_cons in Hcls as [->|Hcls]); [| | | | |by apply elem_of_nil in Hcls].
  all: unfold copy, ArrayView_toarray, ArrayView_copy, SparseCSRView_copy,
         SparseCSCView_copy; simpl;
       rewrite (fresh_copy_ok _ _ _ t) by done;
       eexists; split; [reflexivity|]; by repeat split.
Qed.

Lemma view_copy_plain_witness :
  ∃ o, copy example_view example_store
       = (Ok o, Store (cells example_store
                         ++ [Node ndarray [(KInt 0, Leaf 5)]])
                      (adatas example_store) (trace example_store))
       ∧ cls o = ndarray ∧ _view_args o = None.
Proof.
  destruct (view_copy_plain example_view example_store
              (Node ndarray [(KInt 0, Leaf 5)]) ltac:(by left) eq_refl)
    as (o & Hc & _ & _ & Hn & _ & Ha & _).
  exists o. split; [exact Hc|]. split; [exact (proj1 (Ha eq_refl)) | exact Hn].
Defined.

(** *** Computations that only add cells *)

Lemma allocating_pure {A} (m : M A) : pure m → allocating m.
Proof.
  intros Hm σ r σ' ->%Hm. split; [done|]. split; [done|].
  exists []. by rewrite app_nil_r.
Qed.

Lemma allocating_bind {A B} (m : M A) (k : A → M B) :
  allocating m → (∀ a, allocating (k a)) → allocating (bind m k).
Proof.
  intros Hm Hk σ r σ' [(a & σ1 & H1 & H2)|(e & H1 & _)]%bind_inv.
  - apply Hm in H1 as (Ha1 & Ht1 & ext1 & Hc1).
    apply Hk in H2 as (Ha2 & Ht2 & ext2 & Hc2).
    split; [congruence|]. split; [congruence|].
    exists (ext1 ++ ext2). by rewrite Hc2, Hc1, app_assoc.
  - by apply Hm in H1.
Qed.

Lemma allocating_alloc t : allocating (alloc t).
Proof. intros σ r σ' [= _ <-]. simpl. split; [done|]. split; [done|]. by exists [t]. Qed.

Lemma allocating_fresh_copy c self : allocating (fresh_copy c self).
Proof.
  unfold fresh_copy. apply allocating_bind; [apply allocating_pure, pure_read|].
  intros t. apply allocating_bind; [apply allocating_alloc|].
  intros l. apply allocating_pure, pure_ret.
Qed.

Lemma allocating_DataFrame_drop df labels : allocating (DataFrame_drop df labels false).
Proof.
  unfold DataFrame_drop.
  apply allocating_bind; [apply allocating_pure, pure_read|]. intros t.
  apply allocating_bind; [apply allocating_pure, pure_lift|]. intros t'.
  apply allocating_bind; [apply allocating_alloc|].
  intros l. apply allocating_pure, pure_ret.
Qed.

(** The value the body hands back does not matter to the scope. *)
Lemma with_then_ret {L Y A} (g : genctx L Y) (body : Y → M unit) (b : A) σ :
  with_ g (λ y, let* _ := body y in ret b) σ
  = match with_ g body σ with
    | (Ok _, σ') => (Ok b, σ')
    | (Raise e, σ') => (Raise e, σ')
    end.
Proof.
  unfold with_, bind, ret.
  destruct (before_yield g σ) as [[[locals y]|e] σ1]; [|done].
  destruct (body y σ1) as [[[]|e] σ2]; [|done].
  by destruct (after_yield g locals σ2) as [[[]|e] σ3].
Qed.

(** *** Deep copies of views *)

(** C8, as stated, fails for the dense variant: [ArrayView] does not
    derive from [_ViewMixin], so its deep copy is [ndarray.__deepcopy__],
    which returns another [ArrayView] with the same descriptor, over a
    copy of the data of the view itself. *)
Lemma deepcopy_bypasses_view_counterexample :
  resolve ArrayView "__deepcopy__" = Some ndarray
  ∧ deepcopy example_view example_store
    = (Ok (PyObj ArrayView (3, []) (Some example_ref)),
       Store (cells example_store ++ [Node ndarray [(KInt 0, Leaf 5)]])
             (adatas example_store) (trace example_store))
  ∧ ¬ deepcopy_bypasses_view example_view example_store.
Proof.
  split; [reflexivity|]. split; [reflexivity|].
  intros H.
  destruct (H example_ref (AnnData [("X", 0); ("obsm", 1); ("obs", 2)] (Some 0)) 0
              eq_refl eq_refl eq_refl) as [Heq _].
  vm_compute in Heq. discriminate.
Qed.

Lemma deepcopy_native_plain t c σ :
  cells σ !! c = Some t → is_view_class (tree_class t) = false →
  ∃ k, deepcopy_native (PyObj (tree_class t) (c, []) None) σ
       = (Ok (PyObj k (length (cells σ), []) None),
          Store (cells σ ++ [t]) (adatas σ) (trace σ))
       ∧ is_view_class k = false.
Proof.
  intros Hc Hnv.
  assert (Hread : (read ((c, []) : cursor) σ).1 = Ok t).
  { unfold read. simpl. by rewrite Hc. }
  unfold deepcopy_native. simpl.
  destruct (resolve (tree_class t) "__deepcopy__") as [[]|] eqn:Hres.
  all: try (exists (tree_class t); split; [|done];
            apply read_ok in Hread; by rewrite (bind_ok _ _ _ _ _ Hread)).
  - exists (tree_class t). split; [|done]. unfold ndarray_copy.
    apply read_ok in Hread. rewrite (bind_ok _ _ _ _ _ Hread).
    unfold bind, alloc, ret, array_from_template; simpl.
    by destruct (resolve (tree_class t) "__array_finalize__") as [[]|].
  - exists DataFrame. split; [|done].
    by rewrite (fresh_copy_ok DataFrame (PyObj (tree_class t) (c, []) None) σ t).
Qed.

(** C8, amended. For the views built on [_ViewMixin] (sparse-row,
    sparse-column, mapping, table) with a descriptor whose root is itself
    a view of an AnnData object [r], the deep copy is the deep copy of the
    attribute the descriptor names on [r]: when [r] binds that attribute
    to a plain container, the result is a new object without descriptor,
    of a class that is no view class, on a new cell with the contents of
    that container.  The keys of the descriptor and the data of the view
    play no part. *)
Theorem deepcopy_resolves_to_original (self : pyobj) (ref : ElementRef)
    (p : anndata) (r : loc) (σ : store) :
  cls self ∈ [SparseCSRView; SparseCSCView; DictView; DataFrameView] →
  _view_args self = Some ref →
  adatas σ !! parent ref = Some p → _adata_ref p = Some r →
  resolve (cls self) "__deepcopy__" = Some _ViewMixin
  ∧ deepcopy self σ = deepcopy_of_attribute r ref σ
  ∧ ∀ ad c t,
      adatas σ !! r = Some ad →
      find (λ nc, bool_decide (nc.1 = attrname ref)) (attrs ad)
      = Some (attrname ref, c) →
      cells σ !! c = Some t → is_view_class (tree_class t) = false →
      ∃ k, deepcopy self σ
           = (Ok (PyObj k (length (cells σ), []) None),
              Store (cells σ ++ [t]) (adatas σ) (trace σ))
           ∧ is_view_class k = false.
Proof.
  intros Hcls Hv Hp Hr.
  assert (Hres : resolve (cls self) "__deepcopy__" = Some _ViewMixin).
  { repeat (apply elem_of_cons in Hcls as [->|Hcls]); try reflexivity.
    by apply elem_of_nil in Hcls. }
  assert (Heq : deepcopy self σ = deepcopy_of_attribute r ref σ).
  { unfold deepcopy. rewrite Hres. unfold _ViewMixin___deepcopy__. rewrite Hv.
    destruct ref as [par name ks]. simpl in *.
    unfold bind at 1. by rewrite Hp, Hr. }
  split; [done|]. split; [done|].
  intros ad c t Had Hfind Hc Hnv. rewrite Heq.
  assert (Hattr : getattr r (attrname ref) σ = (Ok (c, []), σ)).
  { unfold getattr. by rewrite Had, Hfind. }
  assert (Hplain : plain_at (c, []) σ = (Ok (PyObj (tree_class t) (c, []) None), σ)).
  { unfold plain_at, bind, read. simpl. by rewrite Hc. }
  unfold deepcopy_of_attribute.
  rewrite (bind_ok _ _ _ _ _ Hattr), (bind_ok _ _ _ _ _ Hplain).
  by apply deepcopy_native_plain.
Qed.

Lemma deepcopy_resolves_to_original_witness :
  deepcopy example_dict_view example_store
  = deepcopy_of_attribute 0 (MkElementRef 1 "obsm" []) example_store.
Proof.
  exact (proj1 (proj2 (deepcopy_resolves_to_original example_dict_view
    (MkElementRef 1 "obsm" [])
    (AnnData [("X", 0); ("obsm", 1); ("obs", 2)] (Some 0)) 0 example_store
    ltac:(by right; right; left) eq_refl eq_refl eq_refl))).
Defined.

(** *** The construction registry *)

Lemma find_none_forall {A} (f : A → bool) (l : list A) :
  Forall (λ x, f x = false) l → find f l = None.
Proof. induction 1 as [|x l Hx _ IH]; [done|]. simpl. by rewrite Hx. Qed.

(** C9. [as_view] on an object none of whose classes, along the MRO of
    its type, has a registered implementation raises at once
    [NotImplementedError], and the message holds the representation of
    the type of the object; nothing is built and the store is untouched.
    An object that dispatches to the implementation for [ZappyArray] is
    returned as it is.  Only objects with a registered class are ever
    wrapped. *)
Theorem as_view_unsupported (obj : pyobj) (view_args : option view_args_tuple)
    (σ : store) :
  (Forall (λ k, k ∉ registry) (mro (cls obj)) →
   as_view obj view_args σ
   = (Raise (NotImplementedError
               ("No view type has been registered for <class '"
                +:+ class_name (cls obj) +:+ "'>")), σ))
  ∧ (dispatch (cls obj) = ZappyArray → as_view obj view_args σ = (Ok obj, σ))
  ∧ (∀ o σ', as_view obj view_args σ = (Ok o, σ') →
             Exists (λ k, k ∈ registry) (mro (cls obj))).
Proof.
  split; [|split].
  - intros Hnone. unfold as_view, dispatch.
    rewrite find_none_forall; [done|].
    eapply Forall_impl; [exact Hnone|]. intros k Hk. by apply bool_decide_eq_false.
  - intros Hd. unfold as_view. by rewrite Hd.
  - intros o σ' Hok.
    destruct (decide (Exists (λ k, k ∈ registry) (mro (cls obj)))) as [|Hno]; [done|].
    apply not_Exists_Forall in Hno; [|intros k; apply _].
    unfold as_view, dispatch in Hok. rewrite find_none_forall in Hok; [done|].
    eapply Forall_impl; [exact Hno|]. intros k Hk. by apply bool_decide_eq_false.
Qed.

Lemma as_view_unsupported_witness :
  as_view (PyObj (Other "builtins.list" object) (0, []) None)
          (Some (1, "X", [])) example_store
  = (Raise (NotImplementedError
              "No view type has been registered for <class 'builtins.list'>"),
     example_store)
  ∧ as_view (PyObj ZappyArray (0, []) None) (Some (1, "X", [])) example_store
    = (Ok (PyObj ZappyArray (0, []) None), example_store).
Proof.
  destruct (as_view_unsupported (PyObj (Other "builtins.list" object) (0, []) None)
              (Some (1, "X", [])) example_store) as (H1 & _).
  destruct (as_view_unsupported (PyObj ZappyArray (0, []) None)
              (Some (1, "X", [])) example_store) as (_ & H2 & _).
  split; [apply H1, (bool_decide_unpack _); by vm_compute | apply H2; reflexivity].
Defined.

(** *** Array finalization *)

Lemma derive_ArrayView o d :
  cls o = ArrayView →
  derive o d = PyObj ArrayView d (_view_args o).
Proof. intros Hc. unfold derive. by rewrite Hc. Qed.

Lemma fold_derive_ArrayView ds : ∀ v,
  cls v = ArrayView →
  cls (fold_left derive ds v) = ArrayView
  ∧ _view_args (fold_left derive ds v) = _view_args v.
Proof.
  induction ds as [|d ds IH]; intros v Hc; [done|]. simpl.
  rewrite (derive_ArrayView _ _ Hc).
  by destruct (IH (PyObj ArrayView d (_view_args v)) eq_refl).
Qed.

(** C10. Every array numpy derives from a dense view, through any chain
    of reads, each finalized from the array it is taken from, is again an
    [ArrayView] with the descriptor of the originating view, so an item
    assignment on it takes the same route, through the same scoped
    materialization.  An array finalized from a source without descriptor
    has descriptor [None]; the constructor sets the descriptor it is
    given, whatever its input carries; finalization without a source
    assigns nothing. *)
Theorem array_finalize_inherits (v : pyobj) (ds : list cursor) :
  cls v = ArrayView →
  cls (fold_left derive ds v) = ArrayView
  ∧ _view_args (fold_left derive ds v) = _view_args v
  ∧ (∀ ref idx value σ,
       _view_args v = Some ref →
       __setitem__ (fold_left derive ds v) idx value σ = __setitem__ v idx value σ)
  ∧ (∀ src d, _view_args src = None →
              _view_args (array_from_template ArrayView d src) = None)
  ∧ (∀ input view_args,
       cls (ArrayView___new__ input view_args) = ArrayView
       ∧ data (ArrayView___new__ input view_args) = data input
       ∧ _view_args (ArrayView___new__ input view_args)
         = to_ElementRef <$> view_args)
  ∧ (∀ self, __array_finalize__ self None = self).
Proof.
  intros Hc. destruct (fold_derive_ArrayView ds v Hc) as [Hcls Hva].
  split; [done|]. split; [done|]. split; [|split; [|split]].
  - intros ref idx value σ Hv. unfold __setitem__, with_, _update. simpl.
    by rewrite Hva, Hv.
  - intros src d Hsrc. simpl. done.
  - intros input view_args. by repeat split.
  - done.
Qed.

Lemma array_finalize_inherits_witness :
  _view_args (fold_left derive [(1, [KStr "pca"; KInt 0]); (3, [])] example_view)
  = Some example_ref.
Proof.
  exact (proj1 (proj2 (array_finalize_inherits example_view
                         [(1, [KStr "pca"; KInt 0]); (3, [])] eq_refl))).
Defined.

End CowFacts.

(** * Further properties of index composition *)

Module IdxMore.
Import Idx IdxFacts.
Local Open Scope Z_scope.

Lemma result_bind_Ok {A B} (a : A) (f : A → result B) : (Ok a ≫= f) = f a.
Proof. reflexivity. Qed.

(** *** Composition in one statement *)

Lemma resolve_idx_sound {A} (base : list A) (old new : index) (r1 r2 : sel A) :
  getitem base old = Ok r1 →
  getitem (elems r1) new = Ok r2 →
  ∃ c, _resolve_idx old new (len base) = Ok c ∧ getitem base c = Ok r2.
Proof.
  intros H1 H2. destruct old as [s|mask|a|k].
  - assert ((∃ n, new = ISlice n) ∨ ¬ ∃ n, new = ISlice n) as [[n ->]|Hns].
    { destruct new; [left; by eexists| | |]; right; by intros [? ?]. }
    + destruct (getitem_compose_slice_slice _ _ _ _ _ H1 H2) as (c & Hc & Hb).
      exists (ISlice c). simpl. by rewrite Hc.
    + destruct (getitem_slice_as_arr _ _ _ H1) as (r0 & Hr0 & Hl1).
      destruct (getitem_compose_arr _ _ _ _ _ Hl1 H2) as (c & Hc & Hb).
      exists (as_index c).
      rewrite (_resolve_idx_slice_other _ _ _ _ Hr0), Hc; [done|].
      intros n ->. apply Hns. by exists n.
  - simpl in H1. destruct (decide (length mask = length base)) as [Hlen|]; [|done].
    injection H1 as <-. simpl in H2.
    destruct (getitem_compose_arr _ _ _ _ _ (np_where_traverse base mask Hlen) H2)
      as (c & Hc & Hb).
    exists (as_index c). simpl. by rewrite Hc.
  - simpl in H1. destruct (traverse (int_item base) a) as [l1|e] eqn:Hl1; [|done].
    injection H1 as <-. simpl in H2.
    destruct (getitem_compose_arr _ _ _ _ _ Hl1 H2) as (c & Hc & Hb).
    exists (as_index c). simpl. by rewrite Hc.
  - simpl in H1. destruct (int_item base k) as [x|e] eqn:Hx; [|done].
    injection H1 as <-. simpl in H2.
    assert (Hl1 : traverse (int_item base) [k] = Ok [x]) by (simpl; by rewrite Hx).
    destruct (getitem_compose_arr _ _ _ _ _ Hl1 H2) as (c & Hc & Hb).
    exists (as_index c). simpl in *. by rewrite Hc.
Qed.

(** *** Slices that cannot be normalized *)



(** *** The whole axis is neutral *)

Lemma indices_full l : 0 <= l → indices full_slice l = Ok (Range 0 l 1).
Proof. intros Hl. by rewrite indices_nonneg. Qed.

Lemma range_len_unit l : 0 <= l → range_len (Range 0 l 1) = l.
Proof.
  intros Hl. apply range_len_eq; [done|]. unfold len_spec. simpl. lia.
Qed.

(** Composing a slice with [slice(None)], on either side, gives a slice
    for the positions of the slice itself. *)
Theorem slice_slice_full_neutral (s : pyslice) (l : Z) :
  sl_step s ≠ Some 0 → 0 <= l →
  ∃ r c1 c2 r1 r2,
    indices s l = Ok r
    ∧ _resolve_idx_slice_slice s full_slice l = Ok c1
    ∧ _resolve_idx_slice_slice full_slice s l = Ok c2
    ∧ indices c1 l = Ok r1 ∧ range_elems r1 = range_elems r
    ∧ indices c2 l = Ok r2 ∧ range_elems r2 = range_elems r.
Proof.
  intros Hs Hl.
  destruct (indices_ok s l Hs Hl) as (r & Hr & Hstep).
  pose proof (range_len_nonneg r) as Hnn.
  (* on the right *)
  set (ra := Range (range_item r 0) (range_item r (range_len r)) (r_step r * 1)).
  assert (Hra : range_getslice r full_slice = Ok ra).
  { unfold range_getslice. by rewrite indices_full. }
  destruct (range_getslice_spec _ _ _ Hstep Hra) as (n & Hn & Hsa & Hla & Hia).
  rewrite indices_full in Hn by done. injection Hn as <-.
  rewrite range_len_unit in Hla by done.
  assert (Hela : range_elems ra = range_elems r).
  { apply range_elems_ext; [done|]. intros _. unfold ra, range_item. simpl.
    split; lia. }
  destruct (range_to_slice_indices ra l Hsa Hl) as (r1 & Hr1 & He1).
  { intros i Hi. rewrite Hia.
    replace (range_item (Range 0 (range_len r) 1) i) with i
      by (unfold range_item; simpl; lia).
    apply (indices_in_bounds _ _ _ _ Hl Hr). lia. }
  (* on the left *)
  set (rb := Range (range_item (Range 0 l 1) (r_start r))
                   (range_item (Range 0 l 1) (r_stop r)) (1 * r_step r)).
  assert (Hrb : range_getslice (Range 0 l 1) s = Ok rb).
  { unfold range_getslice. rewrite range_len_unit by done. by rewrite Hr. }
  assert (Hsb : r_step rb ≠ 0) by (simpl; lia).
  assert (Hlb : range_len rb = range_len r).
  { apply range_len_eq; [done|].
    pose proof (range_len_spec r Hstep) as Hsp. revert Hsp.
    unfold len_spec, rb, range_item. simpl. generalize (range_len r). lia. }
  assert (Helb : range_elems rb = range_elems r).
  { apply range_elems_ext; [done|]. intros _. unfold rb, range_item. simpl.
    split; lia. }
  destruct (range_to_slice_indices rb l Hsb Hl) as (r2 & Hr2 & He2).
  { intros i Hi. rewrite Hlb in Hi.
    pose proof (indices_in_bounds _ _ _ _ Hl Hr Hi) as Hb. revert Hb.
    unfold rb, range_item. simpl. lia. }
  exists r, (range_to_slice ra), (range_to_slice rb), r1, r2.
  split; [done|].
  split; [by rewrite _resolve_idx_slice_slice_eq, Hr, result_bind_Ok, Hra|].
  split; [by rewrite _resolve_idx_slice_slice_eq, indices_full, result_bind_Ok, Hrb|].
  split; [done|]. split; [congruence|]. split; [done|congruence].
Qed.

Lemma slice_slice_full_neutral_witness :
  ∃ r c1 c2 r1 r2,
    indices (Slice (Some 7) None (Some (-3))) 10 = Ok r
    ∧ _resolve_idx_slice_slice (Slice (Some 7) None (Some (-3))) full_slice 10 = Ok c1
    ∧ _resolve_idx_slice_slice full_slice (Slice (Some 7) None (Some (-3))) 10 = Ok c2
    ∧ indices c1 10 = Ok r1 ∧ range_elems r1 = range_elems r
    ∧ indices c2 10 = Ok r2 ∧ range_elems r2 = range_elems r.
Proof.
  apply (slice_slice_full_neutral (Slice (Some 7) None (Some (-3))) 10);
    [discriminate | lia].
Defined.

(** *** Views of views of views *)

(** Three successive subsets can be composed in either order: composing
    the first two indices and then the third, or the first with the
    composition of the last two, both give an index that selects, from
    the original sequence, what the three steps select one after the
    other. *)
Theorem resolve_idx_assoc {A} (base : list A) (a b c : index) (r1 r2 r3 : sel A) :
  getitem base a = Ok r1 →
  getitem (elems r1) b = Ok r2 →
  getitem (elems r2) c = Ok r3 →
  ∃ ab ab_c bc a_bc,
    _resolve_idx a b (len base) = Ok ab
    ∧ _resolve_idx ab c (len base) = Ok ab_c
    ∧ _resolve_idx b c (len (elems r1)) = Ok bc
    ∧ _resolve_idx a bc (len base) = Ok a_bc
    ∧ getitem base ab_c = Ok r3
    ∧ getitem base a_bc = Ok r3.
Proof.
  intros Ha Hb Hc.
  destruct (resolve_idx_sound _ _ _ _ _ Ha Hb) as (ab & Hab & Hgab).
  destruct (resolve_idx_sound _ _ _ _ _ Hgab Hc) as (ab_c & Habc & Hgabc).
  destruct (resolve_idx_sound _ _ _ _ _ Hb Hc) as (bc & Hbc & Hgbc).
  destruct (resolve_idx_sound _ _ _ _ _ Ha Hgbc) as (a_bc & Habc' & Hgabc').
  by exists ab, ab_c, bc, a_bc.
Qed.

Lemma resolve_idx_assoc_witness :
  ∃ ab ab_c bc a_bc,
    _resolve_idx (ISlice (Slice (Some 1) None (Some 2)))
                 (IBool [true; false; true]) (len [10; 20; 30; 40; 50; 60]) = Ok ab
    ∧ _resolve_idx ab (IInt (-1)) (len [10; 20; 30; 40; 50; 60]) = Ok ab_c
    ∧ _resolve_idx (IBool [true; false; true]) (IInt (-1))
                   (len (elems (Seq [20; 40; 60]))) = Ok bc
    ∧ _resolve_idx (ISlice (Slice (Some 1) None (Some 2))) bc
                   (len [10; 20; 30; 40; 50; 60]) = Ok a_bc
    ∧ getitem [10; 20; 30; 40; 50; 60] ab_c = Ok (Scalar 60)
    ∧ getitem [10; 20; 30; 40; 50; 60] a_bc = Ok (Scalar 60).
Proof.
  exact (resolve_idx_assoc [10; 20; 30; 40; 50; 60]
           (ISlice (Slice (Some 1) None (Some 2))) (IBool [true; false; true])
           (IInt (-1)) (Seq [20; 40; 60]) (Seq [20; 60]) (Scalar 60)
           eq_refl eq_refl eq_refl).
Defined.

(** *** Where the composed positions come from *)

Section members.
Context {A : Type}.
Implicit Types (base : list A).

Lemma item_member base k x : item base k = Ok x → x ∈ base.
Proof. intros [_ Hx]%item_ok. by eapply list_elem_of_lookup_2. Qed.

Lemma int_item_member base k x : int_item base k = Ok x → x ∈ base.
Proof. apply item_member. Qed.

Lemma traverse_members (f : Z → result A) base ps l :
  (∀ p x, f p = Ok x → x ∈ base) →
  traverse f ps = Ok l → Forall (λ x, x ∈ base) l.
Proof.
  intros Hf. revert l. induction ps as [|p ps IH]; intros l.
  - intros [= <-]. constructor.
  - intros (y & ys & -> & Hy & Hys)%traverse_cons_ok.
    constructor; [by eapply Hf | by apply IH].
Qed.

Lemma mask_filter_members mask : ∀ base,
  Forall (λ x, x ∈ base) (mask_filter mask base).
Proof.
  induction mask as [|b mask IH]; intros base; [constructor|].
  destruct base as [|x base]; [constructor|]. simpl.
  assert (Htl : Forall (λ y, y ∈ x :: base) (mask_filter mask base)).
  { eapply Forall_impl; [apply IH|]. intros y Hy. by right. }
  destruct b; [constructor; [left|done] | done].
Qed.

(** Indexing only ever returns entries of the sequence. *)
Lemma getitem_members base i r :
  getitem base i = Ok r → Forall (λ x, x ∈ base) (elems r).
Proof.
  destruct i as [s|mask|a|k]; simpl.
  - destruct (indices s (len base)) as [r0|e]; [simpl|done].
    destruct (traverse (item base) (range_elems r0)) as [l|e] eqn:Hl; [simpl|done].
    intros [= <-]. eapply traverse_members; [|exact Hl]. apply item_member.
  - destruct (decide (length mask = length base)); [|done].
    intros [= <-]. apply mask_filter_members.
  - destruct (traverse (int_item base) a) as [l|e] eqn:Hl; [simpl|done].
    intros [= <-]. eapply traverse_members; [|exact Hl]. apply int_item_member.
  - destruct (int_item base k) as [x|e] eqn:Hx; [simpl|done].
    intros [= <-]. constructor; [by eapply int_item_member|constructor].
Qed.

End members.

Lemma positions_as_index (r : sel Z) : positions (as_index r) = elems r.
Proof. by destruct r. Qed.

Lemma where_from_bounds mask : ∀ i k,
  k ∈ where_from i mask → i <= k < i + len mask.
Proof.
  intros i k Hin. apply where_from_spec in Hin as [Hk Hm].
  apply lookup_lt_Some in Hm. unfold len. lia.
Qed.

(** The positions a composition lists are positions of the old index:
    after an old slice they lie on the axis, after an old mask they are
    true positions of the mask, after an old array they are entries of
    that array, and after an old scalar they all are that scalar.  No
    position is computed that the old index did not select. *)
Theorem resolve_idx_positions (old new : index) (l : Z) (c : index) :
  _resolve_idx old new l = Ok c →
  match old with
  | ISlice s => 0 <= l → Forall (λ x, 0 <= x < l) (positions c)
  | IBool mask =>
      Forall (λ x, 0 <= x < len mask ∧ mask !! Z.to_nat x = Some true) (positions c)
  | IArr a => Forall (λ x, x ∈ a) (positions c)
  | IInt k => Forall (λ x, x = k) (positions c)
  end.
Proof.
  assert (Hvia : ∀ a, as_index <$> getitem a new = Ok c →
                      Forall (λ x, x ∈ a) (positions c)).
  { intros a. destruct (getitem a new) as [r|e] eqn:Hr; [|done].
    intros [= <-]. rewrite positions_as_index. by apply (getitem_members a new). }
  intros Hc. destruct old as [s|mask|a|k].
  - intros Hl.
    assert (Hother : (∀ n, new ≠ ISlice n) → Forall (λ x, 0 <= x < l) (positions c)).
    { intros Hns. destruct (indices s l) as [r0|e] eqn:Hr0.
      - rewrite (_resolve_idx_slice_other _ _ _ _ Hr0 Hns) in Hc.
        eapply Forall_impl; [exact (Hvia _ Hc)|]. simpl.
        intros x (i & Hi & ->)%elem_of_range_elems.
        by apply (indices_in_bounds _ _ _ _ Hl Hr0).
      - destruct new as [n| | |]; [by destruct (Hns n)|..];
          unfold _resolve_idx in Hc; by rewrite Hr0 in Hc. }
    destruct new as [n| | |]; [|by apply Hother..].
    unfold _resolve_idx in Hc.
    destruct (_resolve_idx_slice_slice s n l); [|done].
    injection Hc as <-. constructor.
  - eapply Forall_impl; [exact (Hvia _ Hc)|]. simpl.
    intros x Hx. split.
    + apply where_from_bounds in Hx. lia.
    + by apply np_where_spec in Hx as [_ ?].
  - by apply Hvia.
  - eapply Forall_impl; [exact (Hvia _ Hc)|]. simpl.
    by intros x ->%list_elem_of_singleton.
Qed.

Lemma resolve_idx_positions_witness :
  Forall (λ x, 0 <= x < 6) (positions (IArr [1; 5])).
Proof.
  exact (resolve_idx_positions (ISlice (Slice (Some 1) None (Some 2)))
           (IBool [true; false; true]) 6 (IArr [1; 5]) eq_refl ltac:(lia)).
Defined.

(** *** The form of the result *)

(** The composed index is a slice exactly when both indices are slices,
    a scalar exactly when the new index is a scalar, an integer array in
    every other case, and never a boolean mask. *)
Theorem resolve_idx_kind (old new : index) (l : Z) (c : index) :
  _resolve_idx old new l = Ok c →
  match c with
  | ISlice _ => ∃ s n, old = ISlice s ∧ new = ISlice n
  | IInt _ => ∃ j, new = IInt j
  | IArr _ => (∀ j, new ≠ IInt j) ∧ ¬ (∃ s n, old = ISlice s ∧ new = ISlice n)
  | IBool _ => False
  end.
Proof.
  assert (Hvia : ∀ a, as_index <$> getitem a new = Ok c →
            match c with
            | ISlice _ => False
            | IInt _ => ∃ j, new = IInt j
            | IArr _ => ∀ j, new ≠ IInt j
            | IBool _ => False
            end).
  { intros a Hc. destruct (getitem a new) as [r|e] eqn:Hr; [|done].
    injection Hc as <-. destruct new as [n|m|js|j]; simpl in Hr.
    - destruct (indices n (len a)); [simpl in Hr|done].
      destruct (traverse _ _); [|done]. by injection Hr as <-.
    - destruct (decide _); [|done]. by injection Hr as <-.
    - destruct (traverse _ _); [|done]. by injection Hr as <-.
    - destruct (int_item a j); [|done]. injection Hr as <-. by exists j. }
  assert (Hfin : match c with
                 | ISlice _ => False
                 | IInt _ => ∃ j, new = IInt j
                 | IArr _ => ∀ j, new ≠ IInt j
                 | IBool _ => False
                 end →
                 (∀ s n, ¬ (old = ISlice s ∧ new = ISlice n)) →
                 match c with
                 | ISlice _ => ∃ s n, old = ISlice s ∧ new = ISlice n
                 | IInt _ => ∃ j, new = IInt j
                 | IArr _ =>
                     (∀ j, new ≠ IInt j)
                     ∧ ¬ (∃ s n, old = ISlice s ∧ new = ISlice n)
                 | IBool _ => False
                 end).
  { destruct c; try done. intros H Hn. split; [done|].
    intros (s & n & Hs). by apply (Hn s n). }
  intros Hc. destruct old as [s|mask|a|k].
  - destruct new as [n|m|js|j].
    + unfold _resolve_idx in Hc.
      destruct (_resolve_idx_slice_slice s n l); [|done].
      injection Hc as <-. by exists s, n.
    + unfold _resolve_idx in Hc. destruct (indices s l) as [r0|e]; [|done].
      rewrite result_bind_Ok in Hc. apply Hfin; [by eapply Hvia|]. by intros ?? [_ ?].
    + unfold _resolve_idx in Hc. destruct (indices s l) as [r0|e]; [|done].
      rewrite result_bind_Ok in Hc. apply Hfin; [by eapply Hvia|]. by intros ?? [_ ?].
    + unfold _resolve_idx in Hc. destruct (indices s l) as [r0|e]; [|done].
      rewrite result_bind_Ok in Hc. apply Hfin; [by eapply Hvia|]. by intros ?? [_ ?].
  - apply Hfin; [by eapply Hvia|]. by intros ?? [? _].
  - apply Hfin; [by eapply Hvia|]. by intros ?? [? _].
  - apply Hfin; [by eapply Hvia|]. by intros ?? [? _].
Qed.

Lemma resolve_idx_kind_witness :
  (∀ j, IBool [true; false; true] ≠ IInt j)
  ∧ ¬ (∃ s n, ISlice (Slice (Some 1) None (Some 2)) = ISlice s
              ∧ IBool [true; false; true] = ISlice n).
Proof.
  exact (resolve_idx_kind (ISlice (Slice (Some 1) None (Some 2)))
           (IBool [true; false; true]) 6 (IArr [1; 5]) eq_refl).
Defined.

(** *** A scalar old index *)

(** After a scalar selection the axis has length one: a further scalar
    index is valid only as [0] or [-1], and then gives the old scalar
    back; any other scalar raises [IndexError]. *)
Theorem resolve_idx_scalar_scalar (k j l : Z) :
  _resolve_idx (IInt k) (IInt j) l
  = if decide (j = 0 ∨ j = -1) then Ok (IInt k) else Raise IndexError.
Proof.
  unfold _resolve_idx, getitem, int_item, item, len.
  change (Z.of_nat (length [k])) with 1.
  destruct (decide (j = 0 ∨ j = -1)) as [[->| ->]|Hj]; [done|done|].
  destruct (Z.ltb_spec j 0).
  - destruct (Z.leb_spec 0 (j + 1)), (Z.ltb_spec (j + 1) 1); simpl; try done; lia.
  - destruct (Z.leb_spec 0 j), (Z.ltb_spec j 1); simpl; try done; lia.
Qed.

(** *** Both axes *)

(** [_resolve_idxs] composes the two axes independently, each against
    its own length: on the row labels and on the column labels the pair
    it returns selects what the old pair followed by the new pair select. *)
Theorem resolve_idxs_correct {A B} (rows : list A) (cols : list B)
    (old new : index * index) (r1 r2 : sel A) (c1 c2 : sel B) :
  getitem rows old.1 = Ok r1 → getitem (elems r1) new.1 = Ok r2 →
  getitem cols old.2 = Ok c1 → getitem (elems c1) new.2 = Ok c2 →
  ∃ ij, _resolve_idxs old new (len rows, len cols) = Ok ij
        ∧ getitem rows ij.1 = Ok r2 ∧ getitem cols ij.2 = Ok c2.
Proof.
  intros Hr1 Hr2 Hc1 Hc2.
  destruct (resolve_idx_sound _ _ _ _ _ Hr1 Hr2) as (i & Hi & Hgi).
  destruct (resolve_idx_sound _ _ _ _ _ Hc1 Hc2) as (j & Hj & Hgj).
  exists (i, j). unfold _resolve_idxs. simpl.
  rewrite Hi, result_bind_Ok, Hj. by rewrite result_bind_Ok.
Qed.

Lemma resolve_idxs_correct_witness :
  ∃ ij, _resolve_idxs (ISlice (Slice (Some 1) None None), IArr [2; 0])
                      (IInt 0, IBool [false; true])
                      (len [10; 20; 30], len ["a"; "b"; "c"]) = Ok ij
        ∧ getitem [10; 20; 30] ij.1 = Ok (Scalar 20)
        ∧ getitem ["a"; "b"; "c"] ij.2 = Ok (Seq ["a"]).
Proof.
  exact (resolve_idxs_correct [10; 20; 30] ["a"; "b"; "c"]
           (ISlice (Slice (Some 1) None None), IArr [2; 0])
           (IInt 0, IBool [false; true])
           (Seq [20; 30]) (Scalar 20) (Seq ["c"; "a"]) (Seq ["a"])
           eq_refl eq_refl eq_refl eq_refl).
Defined.

End IdxMore.

(** * Further properties of the copy-on-write views *)

Module CowMore.
Import Cow CowFacts.

(** *** Entries of a container *)

Lemma kids_lookup_cons k k' t kids :
  kids_lookup k ((k', t) :: kids)
  = if decide (k' = k) then Some t else kids_lookup k kids.
Proof.
  unfold kids_lookup. simpl.
  destruct (decide (k' = k)) as [->|Hne].
  - by rewrite bool_decide_eq_true_2.
  - by rewrite bool_decide_eq_false_2.
Qed.

Lemma kids_lookup_replace_eq k t kids :
  is_Some (kids_lookup k kids) → kids_lookup k (kids_replace k t kids) = Some t.
Proof.
  induction kids as [|[k' t'] kids IH]; [by intros [? ?]|].
  rewrite kids_lookup_cons. simpl.
  destruct (decide (k' = k)) as [->|Hne]; intros Hs.
  - rewrite kids_lookup_cons. by rewrite decide_True.
  - rewrite kids_lookup_cons, decide_False by done. by apply IH.
Qed.

Lemma kids_lookup_replace_ne k k0 t kids :
  k0 ≠ k → kids_lookup k0 (kids_replace k t kids) = kids_lookup k0 kids.
Proof.
  intros Hne. induction kids as [|[k' t'] kids IH]; [done|]. simpl.
  destruct (decide (k' = k)) as [->|Hk].
  - rewrite !kids_lookup_cons. by rewrite !decide_False by done.
  - rewrite !kids_lookup_cons. by rewrite IH.
Qed.

Lemma kids_lookup_app_ne k k0 t kids :
  k0 ≠ k → kids_lookup k0 (kids ++ [(k, t)]) = kids_lookup k0 kids.
Proof.
  intros Hne. induction kids as [|[k' t'] kids IH]; simpl.
  - rewrite kids_lookup_cons. by rewrite decide_False by done.
  - rewrite !kids_lookup_cons. by rewrite IH.
Qed.

Lemma kids_lookup_app_new k t kids :
  kids_lookup k kids = None → kids_lookup k (kids ++ [(k, t)]) = Some t.
Proof.
  induction kids as [|[k' t'] kids IH]; simpl.
  - intros _. rewrite kids_lookup_cons. by rewrite decide_True.
  - rewrite !kids_lookup_cons. destruct (decide (k' = k)); [done|]. apply IH.
Qed.

Lemma kids_lookup_filter (labels : list key) k kids :
  kids_lookup k (filter (λ kt, kt.1 ∉ labels) kids)
  = if decide (k ∈ labels) then None else kids_lookup k kids.
Proof.
  induction kids as [|[k' t'] kids IH].
  - by destruct (decide (k ∈ labels)).
  - rewrite filter_cons. simpl. destruct (decide (k' ∉ labels)) as [Hin|Hin].
    + rewrite !kids_lookup_cons, IH.
      destruct (decide (k' = k)) as [->|]; [by rewrite decide_False|done].
    + rewrite IH, kids_lookup_cons.
      destruct (decide (k ∈ labels)) as [|Hk]; [done|].
      destruct (decide (k' = k)) as [->|]; [|done]. by destruct Hin.
Qed.

(** *** Reading after an in-place operation *)

Lemma tree_get_app p s t : tree_get (p ++ s) t = (tree_get p t ≫= tree_get s).
Proof.
  revert t. induction p as [|k p IH]; intros t; [done|]. simpl.
  destruct (tree_getitem k t) as [t'|e]; [|done]. apply IH.
Qed.

(** An operation at the end of [p] goes through exactly when [p] leads
    to a container on which it goes through, and then [p] leads to its
    result. *)
Lemma tree_update_ok p f : ∀ t t',
  tree_update p f t = Ok t' →
  ∃ u u', tree_get p t = Ok u ∧ f u = Ok u' ∧ tree_get p t' = Ok u'.
Proof.
  induction p as [|k p IH]; intros t t'; simpl.
  - intros Hf. by exists t, t'.
  - destruct t as [z|c kids]; [done|].
    destruct (kids_lookup k kids) as [t0|] eqn:Hk; [|done]. simpl.
    destruct (tree_update p f t0) as [t0'|e] eqn:Hup; [|done]. simpl.
    intros [= <-]. destruct (IH _ _ Hup) as (u & u' & Hu & Hf & Hu').
    exists u, u'. rewrite Hk. simpl. split; [done|]. split; [done|].
    rewrite kids_lookup_replace_eq by (by rewrite Hk). done.
Qed.

Lemma tree_update_raise p f : ∀ t e,
  tree_update p f t = Raise e →
  tree_get p t = Raise e ∨ ∃ u, tree_get p t = Ok u ∧ f u = Raise e.
Proof.
  induction p as [|k p IH]; intros t e; simpl.
  - intros Hf. right. by exists t.
  - destruct t as [z|c kids]; [intros [= <-]; by left|].
    unfold tree_getitem.
    destruct (kids_lookup k kids) as [t0|] eqn:Hk; simpl; [|intros [= <-]; by left].
    destruct (tree_update p f t0) as [t0'|e'] eqn:Hup; [done|]. simpl.
    intros [= <-]. by apply IH.
Qed.

(** ... and what lies off the way to that container reads as before. *)
Lemma tree_update_diverge f q k r k' r' : ∀ t t',
  k ≠ k' →
  tree_update (q ++ k :: r) f t = Ok t' →
  tree_get (q ++ k' :: r') t' = tree_get (q ++ k' :: r') t.
Proof.
  induction q as [|k0 q IH]; intros t t' Hne; simpl.
  - destruct t as [z|c kids]; [done|].
    destruct (kids_lookup k kids) as [t0|] eqn:Hk; [|done]. simpl.
    destruct (tree_update r f t0) as [t0'|e]; [|done]. simpl.
    intros [= <-]. simpl. by rewrite kids_lookup_replace_ne by done.
  - destruct t as [z|c kids]; [done|].
    destruct (kids_lookup k0 kids) as [t0|] eqn:Hk; [|done]. simpl.
    destruct (tree_update (q ++ k :: r) f t0) as [t0'|e] eqn:Hup; [|done]. simpl.
    intros [= <-]. simpl.
    rewrite kids_lookup_replace_eq by (by rewrite Hk). rewrite Hk. simpl.
    by apply IH.
Qed.

Lemma node_setitem_get idx value u u' :
  node_setitem idx value u = Ok u' → tree_getitem idx u' = Ok value.
Proof.
  destruct u as [z|c kids]; [done|]. simpl.
  destruct (kids_lookup idx kids) as [t0|] eqn:Hk.
  - intros [= <-]. simpl.
    by rewrite kids_lookup_replace_eq by (by rewrite Hk).
  - destruct (bool_decide _); [|done]. intros [= <-]. simpl.
    by rewrite kids_lookup_app_new.
Qed.

Lemma node_setitem_other idx value u u' k :
  node_setitem idx value u = Ok u' → k ≠ idx →
  tree_getitem k u' = tree_getitem k u.
Proof.
  destruct u as [z|c kids]; [done|]. simpl.
  destruct (kids_lookup idx kids) as [t0|] eqn:Hk.
  - intros [= <-] Hne. simpl. by rewrite kids_lookup_replace_ne.
  - destruct (bool_decide _); [|done]. intros [= <-] Hne. simpl.
    by rewrite kids_lookup_app_ne.
Qed.

(** After [container[idx] = value] at the end of [p]: the value is under
    [p ++ [idx]], and every path that parts ways with [p ++ [idx]] reads
    as before. *)
Lemma tree_setitem_read p idx value t t' :
  tree_update p (node_setitem idx value) t = Ok t' →
  tree_get (p ++ [idx]) t' = Ok value
  ∧ ∀ p', diverge (p ++ [idx]) p' → tree_get p' t' = tree_get p' t.
Proof.
  intros Hup. destruct (tree_update_ok _ _ _ _ Hup) as (u & u' & Hu & Hf & Hu').
  split.
  - rewrite tree_get_app, Hu'. simpl.
    by rewrite (node_setitem_get _ _ _ _ Hf).
  - intros p' (q & k & k' & r & r' & Hw & -> & Hne).
    destruct r as [|k1 r _] using rev_ind.
    + apply app_inj_tail in Hw as [-> ->].
      rewrite !tree_get_app, Hu, Hu'. simpl.
      by rewrite (node_setitem_other _ _ _ _ _ Hf).
    + rewrite app_comm_cons, app_assoc in Hw.
      apply app_inj_tail in Hw as [-> ->].
      by apply (tree_update_diverge _ _ _ _ _ _ _ _ Hne Hup).
Qed.

(** *** Attributes of the copy *)

Lemma find_zip_seq (name : string) (l : list (string * loc)) : ∀ base,
  match find (λ nc, bool_decide (nc.1 = name)) l with
  | Some (n0, c0) =>
      ∃ i, l !! i = Some (name, c0)
           ∧ n0 = name
           ∧ find (λ nc : string * loc, bool_decide (nc.1 = name))
                  (zip (l.*1) (seq base (length l)))
             = Some (name, base + i)%nat
  | None =>
      find (λ nc : string * loc, bool_decide (nc.1 = name))
           (zip (l.*1) (seq base (length l))) = None
  end.
Proof.
  induction l as [|[n c] l IH]; intros base; [done|]. simpl.
  destruct (decide (n = name)) as [->|Hne].
  - rewrite !bool_decide_eq_true_2 by done. exists 0%nat.
    by rewrite Nat.add_0_r.
  - rewrite !bool_decide_eq_false_2 by done.
    specialize (IH (S base)).
    destruct (find _ l) as [[n0 c0]|]; [|done].
    destruct IH as (i & Hi & -> & Hf). exists (S i).
    split; [done|]. split; [done|].
    change (list_fmap (string * loc)%type string fst l) with (l.*1).
    rewrite Hf. f_equal. f_equal. lia.
Qed.

(** The copy binds an attribute exactly when the original does, to a
    new cell with the contents of the original one; different names are
    bound to different cells. *)
Lemma copy_attrs_find cs l cs' l' name :
  copy_attrs cs l = Ok (cs', l') →
  match find (λ nc, bool_decide (nc.1 = name)) l with
  | Some (_, c0) =>
      ∃ i u, l !! i = Some (name, c0)
             ∧ find (λ nc, bool_decide (nc.1 = name)) l'
               = Some (name, length cs + i)
             ∧ cs !! c0 = Some u ∧ cs' !! (length cs + i) = Some u
  | None => find (λ nc, bool_decide (nc.1 = name)) l' = None
  end.
Proof.
  intros (ts & -> & -> & Hlen & Hidx)%copy_attrs_spec.
  pose proof (find_zip_seq name l (length cs)) as Hf. rewrite Hlen.
  destruct (find _ l) as [[n0 c0]|]; [|done].
  destruct Hf as (i & Hi & -> & Hf).
  destruct (Hidx _ _ _ Hi) as (_ & u & Hu & Hu').
  by exists i, u.
Qed.

Lemma getattr_find a name σ d σ' :
  getattr a name σ = (Ok d, σ') →
  ∃ ad c, adatas σ !! a = Some ad
          ∧ find (λ nc, bool_decide (nc.1 = name)) (attrs ad) = Some (name, c)
          ∧ d = (c, []).
Proof.
  unfold getattr. destruct (adatas σ !! a) as [ad|]; [|done].
  destruct (find _ (attrs ad)) as [[n c]|] eqn:Hf; [|done].
  intros [= <- _]. exists ad, c. split; [done|]. split; [|done].
  pose proof Hf as [_ Hn%bool_decide_eq_true]%find_some. simpl in Hn. by subst n.
Qed.

Lemma observe_eq a name p σ ad c t :
  adatas σ !! a = Some ad →
  find (λ nc, bool_decide (nc.1 = name)) (attrs ad) = Some (name, c) →
  cells σ !! c = Some t →
  observe a name p σ = (tree_get p t, σ).
Proof.
  intros Ha Hf Hc. unfold observe, bind, getattr, read. rewrite Ha, Hf. simpl.
  by rewrite Hc.
Qed.

Lemma observe_missing a name p σ ad :
  adatas σ !! a = Some ad →
  find (λ nc, bool_decide (nc.1 = name)) (attrs ad) = None →
  observe a name p σ = (Raise AttributeError, σ).
Proof. intros Ha Hf. unfold observe, bind, getattr. by rewrite Ha, Hf. Qed.


(** *** Following the keys *)

Lemma getitem_spec c p k t u σ :
  cells σ !! c = Some t → tree_get p t = Ok u →
  getitem (c, p) k σ
  = (match tree_getitem k u with
     | Ok _ => Ok (c, p ++ [k])
     | Raise e => Raise e
     end, σ).
Proof.
  intros Hc Hu. unfold getitem, bind, read, lift, ret. simpl. rewrite Hc, Hu.
  by destruct (tree_getitem k u).
Qed.

(** Following the keys of a descriptor from an attribute ends where
    [tree_get] ends, with its exception when a key is missing. *)
Lemma reduce_getitem_spec ks : ∀ c p t u σ,
  cells σ !! c = Some t → tree_get p t = Ok u →
  reduce getitem ks (c, p) σ
  = (match tree_get ks u with
     | Ok _ => Ok (c, p ++ ks)
     | Raise e => Raise e
     end, σ).
Proof.
  induction ks as [|k ks IH]; intros c p t u σ Hc Hu; simpl.
  - by rewrite app_nil_r.
  - pose proof (getitem_spec c p k t u σ Hc Hu) as Hg.
    destruct (tree_getitem k u) as [u'|e] eqn:Hk; simpl.
    + rewrite (bind_ok _ _ _ _ _ Hg).
      rewrite (IH c (p ++ [k]) t u' σ Hc).
      * by rewrite <- app_assoc.
      * rewrite tree_get_app, Hu. simpl. by rewrite Hk.
    + by rewrite (bind_raise _ _ _ _ _ Hg).
Qed.

Lemma cell_update_ok d f σ σ' :
  cell_update d f σ = (Ok tt, σ') →
  ∃ t t', cells σ !! d.1 = Some t ∧ tree_update d.2 f t = Ok t'
          ∧ σ' = Store (<[d.1 := t']> (cells σ)) (adatas σ) (trace σ).
Proof.
  unfold cell_update. destruct (cells σ !! d.1) as [t|]; [|done].
  destruct (tree_update d.2 f t) as [t'|e] eqn:Hup; [|done].
  intros [= <-]. by exists t, t'.
Qed.

Lemma cell_update_raise d f σ e σ' :
  cell_update d f σ = (Raise e, σ') → σ' = σ.
Proof.
  unfold cell_update. destruct (cells σ !! d.1) as [t|]; [|by intros [= _ <-]].
  by destruct (tree_update d.2 f t) as [t'|e']; [|intros [= _ <-]].
Qed.

(** *** A successful scoped materialization, in full *)

Lemma _update_enter_find self ref σ locals container σ1 :
  _view_args self = Some ref →
  before_yield (_update self) σ = (Ok (locals, container), σ1) →
  ∃ ad ts l' i c0 u,
    adatas σ !! parent ref = Some ad
    ∧ copy_attrs (cells σ) (attrs ad) = Ok (cells σ ++ ts, l')
    ∧ attrs ad !! i = Some (attrname ref, c0)
    ∧ find (λ nc, bool_decide (nc.1 = attrname ref)) (attrs ad)
      = Some (attrname ref, c0)
    ∧ find (λ nc, bool_decide (nc.1 = attrname ref)) l'
      = Some (attrname ref, length (cells σ) + i)
    ∧ cells σ !! c0 = Some u
    ∧ (cells σ ++ ts) !! (length (cells σ) + i) = Some u
    ∧ locals = (parent ref, length (adatas σ))
    ∧ σ1 = Store (cells σ ++ ts) (adatas σ ++ [AnnData l' None])
                 (trace σ ++ [Copied (parent ref) (length (adatas σ))])
    ∧ data container = (length (cells σ) + i, keys ref).
Proof.
  intros Hv. simpl. rewrite Hv. destruct ref as [adata_view attr_name ks]. simpl.
  intros [(new & σa & Hcopy & H)|(e & _ & ?)]%bind_inv; [|done].
  apply bind_inv in H as [(attr & σb & Hattr & H)|(e & _ & ?)]; [|done].
  apply bind_inv in H as [(d & σc & Hred & H)|(e & _ & ?)]; [|done].
  apply bind_inv in H as [(o & σd & Hplain & H)|(e & _ & ?)]; [|done].
  injection H as <- <- <-.
  pose proof (pure_getattr _ _ _ _ _ Hattr) as ->.
  pose proof (pure_reduce_getitem _ _ _ _ _ Hred) as ->.
  pose proof (pure_plain_at _ _ _ _ Hplain) as ->.
  apply AnnData_copy_ok in Hcopy as (ad & ts & l' & Had & Hc & -> & ->).
  apply getattr_find in Hattr as (nd & c & Hnd & Hfind & ->). simpl in Hnd.
  rewrite lookup_app_r, Nat.sub_diag in Hnd by done. injection Hnd as <-.
  simpl in Hfind.
  apply reduce_getitem_cursor in Hred as ->. simpl in Hplain.
  apply plain_at_data in Hplain as [Hd _].
  pose proof (copy_attrs_find _ _ _ _ attr_name Hc) as Hcf.
  destruct (find _ (attrs ad)) as [[n0 c0]|] eqn:Hfa; [|congruence].
  destruct Hcf as (i & u & Hi & Hfl & Hu & Hu').
  rewrite Hfind in Hfl. injection Hfl as ->.
  pose proof Hfa as [_ Hn%bool_decide_eq_true]%find_some. simpl in Hn. subst n0.
  exists ad, ts, l', i, c0, u. by repeat (split; [done|]).
Qed.

(** A scoped in-place operation [f] that returns: the root had the
    attribute of the descriptor, bound to a cell holding [u]; the copy
    holds [u] in a new cell; [f] went through on the container the keys
    lead to; the result is in that new cell and the root is bound to the
    cells of the copy. *)
Lemma with_update_success self ref f σ σ' :
  _view_args self = Some ref →
  with_ (_update self) (λ c, cell_update (data c) f) σ = (Ok tt, σ') →
  ∃ ad ts l' i c0 u t',
    adatas σ !! parent ref = Some ad
    ∧ copy_attrs (cells σ) (attrs ad) = Ok (cells σ ++ ts, l')
    ∧ attrs ad !! i = Some (attrname ref, c0)
    ∧ find (λ nc, bool_decide (nc.1 = attrname ref)) (attrs ad)
      = Some (attrname ref, c0)
    ∧ find (λ nc, bool_decide (nc.1 = attrname ref)) l'
      = Some (attrname ref, length (cells σ) + i)
    ∧ cells σ !! c0 = Some u
    ∧ (cells σ ++ ts) !! (length (cells σ) + i) = Some u
    ∧ tree_update (keys ref) f u = Ok t'
    ∧ σ' = Store (<[length (cells σ) + i := t']> (cells σ ++ ts))
                 (<[parent ref := AnnData l' None]>
                    (adatas σ ++ [AnnData l' None]))
                 (trace σ ++ [Copied (parent ref) (length (adatas σ));
                              InitAsActual (parent ref) (length (adatas σ))]).
Proof.
  intros Hv Hwith. pose proof Hwith as Hw. unfold with_ in Hw.
  apply bind_inv in Hw as [([locals container] & σ1 & Henter & _)|(e & _ & ?)];
    [|done].
  destruct (cell_update (data container) f σ1) as [rb σ2] eqn:Hbody.
  pose proof (with_update_outcome _ _ _ _ _ _ _ _ _ Hv Henter Hbody) as H.
  destruct (_update_enter_find _ _ _ _ _ _ Hv Henter)
    as (ad & ts & l' & i & c0 & u & Had & Hc & Hi & Hfa & Hfl & Hu & Hu' & -> & -> & Hd).
  simpl in H. destruct rb as [[]|e].
  - destruct H as (nd & Hnd & _ & H & _). rewrite H in Hwith.
    injection Hwith as <-.
    apply cell_update_ok in Hbody as (t & t' & Ht & Hup & ->).
    rewrite Hd in *. simpl in *. rewrite Hu' in Ht. injection Ht as <-.
    rewrite lookup_app_r, Nat.sub_diag in Hnd by done. injection Hnd as <-.
    exists ad, ts, l', i, c0, u, t'. by repeat (split; [done|]).
  - destruct H as (H & _). by rewrite H in Hwith.
Qed.

(** *** What the root shows after an assignment *)

Lemma lookup_insert_app_root {A} (l : list A) (x y : A) a z :
  l !! a = Some z → <[a := x]> (l ++ [y]) !! a = Some x.
Proof.
  intros Hz%lookup_lt_Some. apply list_lookup_insert_eq.
  rewrite length_app. lia.
Qed.

(** An assignment on a view that returns is visible through the root:
    the root, no longer a view of anything, holds the value under the
    keys of the descriptor followed by the index.  The storage of the
    view in hand reads as before. *)
Theorem setitem_read_through_root (self : pyobj) (ref : ElementRef) (idx : key)
    (value : tree) (σ σ' : store) :
  _view_args self = Some ref →
  __setitem__ self idx value σ = (Ok tt, σ') →
  (observe (parent ref) (attrname ref) (keys ref ++ [idx]) σ').1 = Ok value
  ∧ (∃ ad', adatas σ' !! parent ref = Some ad' ∧ _adata_ref ad' = None)
  ∧ (∀ t, (read (data self) σ).1 = Ok t → (read (data self) σ').1 = Ok t).
Proof.
  intros Hv. unfold __setitem__. rewrite Hv.
  intros [(u0 & σw & Hw & Hwith)|(e & _ & ?)]%bind_inv; [|done].
  injection Hw as _ <-.
  destruct (with_update_success _ _ _ _ _ Hv Hwith)
    as (ad & ts & l' & i & c0 & u & t' & Had & Hc & Hi & Hfa & Hfl & Hu & Hu' & Hup & ->).
  simpl in *.
  assert (Hroot : <[parent ref := AnnData l' None]>
                    (adatas σ ++ [AnnData l' None]) !! parent ref
                  = Some (AnnData l' None)).
  { by eapply lookup_insert_app_root. }
  assert (Hcell : <[length (cells σ) + i := t']> (cells σ ++ ts)
                    !! (length (cells σ) + i) = Some t').
  { apply list_lookup_insert_eq. by apply lookup_lt_Some in Hu'. }
  split.
  - erewrite observe_eq; [|exact Hroot|exact Hfl|exact Hcell]. simpl.
    by destruct (tree_setitem_read _ _ _ _ _ Hup).
  - split; [by eexists|].
    intros t. apply read_preserved. simpl.
    eapply (preserved_outside _ _ _ (length (cells σ) + i));
      [apply preserved_app | lia |].
    intros j Hj. by apply list_lookup_insert_ne.
Qed.

Lemma setitem_read_through_root_witness :
  (observe 1 "obsm" [KStr "pca"; KInt 0]
     (__setitem__ example_view (KInt 0) (Leaf 9) example_store).2).1
  = Ok (Leaf 9).
Proof.
  apply (setitem_read_through_root example_view example_ref (KInt 0)
           (Leaf 9) example_store
           (__setitem__ example_view (KInt 0) (Leaf 9) example_store).2 eq_refl).
  by vm_compute.
Defined.

(** After a scoped operation that returns, every other attribute of the
    root reads as before. *)
Lemma with_update_other_attribute self ref f σ σ' name p :
  _view_args self = Some ref →
  with_ (_update self) (λ c, cell_update (data c) f) σ = (Ok tt, σ') →
  name ≠ attrname ref →
  (observe (parent ref) name p σ').1 = (observe (parent ref) name p σ).1.
Proof.
  intros Hv Hwith Hname.
  destruct (with_update_success _ _ _ _ _ Hv Hwith)
    as (ad & ts & l' & i & c0 & u & t' & Had & Hc & Hi & Hfa & Hfl & Hu & Hu' & Hup & ->).
  assert (Hroot : <[parent ref := AnnData l' None]>
                    (adatas σ ++ [AnnData l' None]) !! parent ref
                  = Some (AnnData l' None)).
  { by eapply lookup_insert_app_root. }
  pose proof (copy_attrs_find _ _ _ _ name Hc) as Hcf.
  destruct (find (λ nc, bool_decide (nc.1 = name)) (attrs ad)) as [[n1 c1]|] eqn:Hf1.
  - destruct Hcf as (j & u1 & Hj & Hfl1 & Hu1 & Hu1').
    pose proof Hf1 as [_ Hn%bool_decide_eq_true]%find_some. simpl in Hn. subst n1.
    assert (Hij : length (cells σ) + i ≠ length (cells σ) + j).
    { intros Heq. assert (i = j) as -> by lia. congruence. }
    erewrite (observe_eq _ _ _ (Store _ _ _)); [|exact Hroot|exact Hfl1|].
    2:{ simpl. rewrite list_lookup_insert_ne by done. exact Hu1'. }
    by erewrite observe_eq.
  - erewrite (observe_missing _ _ _ (Store _ _ _)); [|exact Hroot|exact Hcf].
    by erewrite observe_missing.
Qed.



(** *** When the call raises *)

(** A scoped operation that raises, at whatever point, has written no
    existing cell, has changed no AnnData object and has not committed. *)
Lemma with_update_raise self f σ e σ' :
  with_ (_update self) (λ c, cell_update (data c) f) σ = (Raise e, σ') →
  preserved (cells σ) (cells σ') ∧ preserved (adatas σ) (adatas σ')
  ∧ ∃ rest, trace σ' = trace σ ++ rest ∧ Forall (λ ev, is_commit ev = false) rest.
Proof.
  intros Hwith. pose proof Hwith as Hw. unfold with_ in Hw.
  apply bind_inv in Hw as [([locals container] & σ1 & Henter & _)|(e' & Henter & _)].
  - destruct (_view_args self) as [ref|] eqn:Hv;
      [|by simpl in Henter; rewrite Hv in Henter].
    destruct (cell_update (data container) f σ1) as [rb σ2] eqn:Hbody.
    pose proof (with_update_outcome _ _ _ _ _ _ _ _ _ Hv Henter Hbody) as H.
    destruct (enter_update_preserves _ _ _ _ _ _ _ _ _ Hv Henter Hbody)
      as (_ & _ & _ & Hc & Ha & _ & Htr).
    simpl in H. destruct rb as [[]|e0].
    + destruct H as (nd & _ & _ & H & _). by rewrite H in Hwith.
    + destruct H as (H & _). rewrite H in Hwith. injection Hwith as _ <-.
      split; [done|]. split; [done|]. eexists. split; [exact Htr|].
      by repeat constructor.
  - apply _update_enter_raise in Henter as [->|(a & ts & nd & ->)]; simpl.
    + split; [apply preserved_refl|]. split; [apply preserved_refl|].
      exists []. by rewrite app_nil_r.
    + split; [apply preserved_app|]. split; [apply preserved_app|].
      eexists. split; [done|]. by repeat constructor.
Qed.

(** An item assignment that raises, on a view or not and for whatever
    reason, leaves every existing cell and every AnnData object, the root
    included, as they were, and no commit has taken place: a failed
    assignment never materializes the root. *)
Theorem setitem_raise_safe (self : pyobj) (idx : key) (value : tree)
    (σ σ' : store) (e : exn) :
  __setitem__ self idx value σ = (Raise e, σ') →
  preserved (cells σ) (cells σ') ∧ preserved (adatas σ) (adatas σ')
  ∧ ∃ rest, trace σ' = trace σ ++ rest ∧ Forall (λ ev, is_commit ev = false) rest.
Proof.
  unfold __setitem__. destruct (_view_args self) as [ref|] eqn:Hv.
  - intros [(u0 & σw & Hw & Hwith)|(e' & Hw & _)]%bind_inv; [|done].
    injection Hw as _ <-.
    apply with_update_raise in Hwith as (Hc & Ha & rest & Htr & Hrest).
    split; [done|]. split; [done|]. simpl in Htr.
    eexists. rewrite Htr, <- app_assoc. split; [done|].
    by constructor.
  - intros ->%cell_update_raise.
    split; [apply preserved_refl|]. split; [apply preserved_refl|].
    exists []. by rewrite app_nil_r.
Qed.

Lemma setitem_raise_safe_witness :
  preserved (adatas example_store)
    (adatas (__setitem__ example_view (KInt 7) (Leaf 9) example_store).2).
Proof.
  exact (proj1 (proj2 (setitem_raise_safe example_view (KInt 7) (Leaf 9)
                         example_store _ IndexError eq_refl))).
Defined.

(** A [drop] on a table view that raises before the commit is reached
    has changed nothing that was there.  Not in place, a call that raises
    has at most added cells.  In place, an exception on entering the
    scope, and an exception of the drop on the yielded table (a label
    that is not there), both end the call at that point: the exception is
    the one of the call, no existing cell is written, no AnnData object
    changes and nothing is committed; the failed drop has not changed the
    copy either, which stays behind unused. *)
Theorem drop_raise_safe (self : pyobj) (labels : list key) (σ : store)
    (e : exn) :
  cls self = DataFrameView →
  (∀ σ', drop self labels false σ = (Raise e, σ') →
         adatas σ' = adatas σ ∧ trace σ' = trace σ
         ∧ preserved (cells σ) (cells σ'))
  ∧ (∀ σ1, before_yield (_update self) σ = (Raise e, σ1) →
           drop self labels true σ = (Raise e, σ1)
           ∧ preserved (cells σ) (cells σ1) ∧ preserved (adatas σ) (adatas σ1)
           ∧ ∃ rest, trace σ1 = trace σ ++ rest
                     ∧ Forall (λ ev, is_commit ev = false) rest)
  ∧ (∀ locals container σ1 σ2,
       before_yield (_update self) σ = (Ok (locals, container), σ1) →
       DataFrame_drop container labels true σ1 = (Raise e, σ2) →
       drop self labels true σ = (Raise e, σ2)
       ∧ σ2 = σ1
       ∧ preserved (cells σ) (cells σ2) ∧ preserved (adatas σ) (adatas σ2)
       ∧ ∃ rest, trace σ2 = trace σ ++ rest
                 ∧ Forall (λ ev, is_commit ev = false) rest).
Proof.
  intros Hcls.
  assert (Hdrop : drop self labels true σ
                  = match with_ (_update self)
                            (λ c, cell_update (data c) (node_drop labels)) σ with
                    | (Ok _, σ') => (Ok None, σ')
                    | (Raise e, σ') => (Raise e, σ')
                    end).
  { unfold drop, DataFrame_drop. simpl. by rewrite with_then_ret. }
  split; [|split].
  - intros σ'. unfold drop, copy. rewrite Hcls. simpl. intros Hrun.
    pose proof Hrun as (Ha & Ht & ext & Hc)%allocating_bind;
      [|apply allocating_fresh_copy|intros c; apply allocating_DataFrame_drop].
    split; [done|]. split; [done|]. rewrite Hc. apply preserved_app.
  - intros σ1 Henter.
    assert (Hwith : with_ (_update self)
                      (λ c, cell_update (data c) (node_drop labels)) σ
                    = (Raise e, σ1)).
    { unfold with_. by rewrite (bind_raise _ _ _ _ _ Henter). }
    rewrite Hdrop, Hwith. split; [done|]. by apply with_update_raise in Hwith.
  - intros locals container σ1 σ2 Henter Hbody.
    assert (Hcell : cell_update (data container) (node_drop labels) σ1
                    = (Raise e, σ2)).
    { unfold DataFrame_drop in Hbody.
      by apply bind_inv in Hbody as [(a & σa & _ & ?)|(e' & -> & [= ->])]. }
    assert (Hwith : with_ (_update self)
                      (λ c, cell_update (data c) (node_drop labels)) σ
                    = (Raise e, σ2)).
    { unfold with_. rewrite (bind_ok _ _ _ _ _ Henter). by rewrite Hcell. }
    rewrite Hdrop, Hwith. split; [done|].
    split; [by apply cell_update_raise in Hcell|].
    by apply with_update_raise in Hwith.
Qed.

Lemma drop_raise_safe_witness :
  drop example_table_view [KStr "zz"] true example_store
  = (Raise KeyError, (before_yield (_update example_table_view) example_store).2)
  ∧ preserved (adatas example_store)
      (adatas (before_yield (_update example_table_view) example_store).2).
Proof.
  destruct (drop_raise_safe example_table_view [KStr "zz"] example_store
              KeyError eq_refl) as (_ & _ & Hbody).
  destruct (Hbody (1, 2) (PyObj DataFrame (5, []) None)
              (before_yield (_update example_table_view) example_store).2
              (before_yield (_update example_table_view) example_store).2)
    as (Hdrop & _ & _ & Ha & _); [by vm_compute|by vm_compute|].
  by split.
Defined.

(** *** Descriptors that do not resolve *)

Lemma AnnData_copy_run a σ ad cs' l' :
  adatas σ !! a = Some ad →
  copy_attrs (cells σ) (attrs ad) = Ok (cs', l') →
  AnnData_copy a σ
  = (Ok (length (adatas σ)),
     Store cs' (adatas σ ++ [AnnData l' None])
           (trace σ ++ [Copied a (length (adatas σ))])).
Proof. intros Ha Hc. unfold AnnData_copy. by rewrite Ha, Hc. Qed.

(** Entering the scope, step by step: after the copy, a missing
    attribute raises [AttributeError] and a key that is not there raises
    the error of the container that lacks it. *)
Lemma _update_enter_run self ref σ ad cs' l' :
  _view_args self = Some ref →
  adatas σ !! parent ref = Some ad →
  copy_attrs (cells σ) (attrs ad) = Ok (cs', l') →
  let new := length (adatas σ) in
  let σ1 := Store cs' (adatas σ ++ [AnnData l' None])
                  (trace σ ++ [Copied (parent ref) new]) in
  match find (λ nc, bool_decide (nc.1 = attrname ref)) (attrs ad) with
  | None => before_yield (_update self) σ = (Raise AttributeError, σ1)
  | Some (_, c0) =>
      ∃ i u, attrs ad !! i = Some (attrname ref, c0) ∧ cells σ !! c0 = Some u
             ∧ before_yield (_update self) σ
               = (match tree_get (keys ref) u with
                  | Ok sub =>
                      Ok ((parent ref, new),
                          PyObj (tree_class sub)
                                (length (cells σ) + i, keys ref) None)
                  | Raise e => Raise e
                  end, σ1)
  end.
Proof.
  intros Hv Had Hc new σ1.
  destruct ref as [adata_view attr_name ks]. simpl in *.
  pose proof (copy_attrs_find _ _ _ _ attr_name Hc) as Hcf.
  pose proof (AnnData_copy_run _ _ _ _ _ Had Hc) as Hcopy. fold new σ1 in Hcopy.
  assert (Hnew : adatas σ1 !! new = Some (AnnData l' None)).
  { unfold σ1, new. simpl. by rewrite lookup_app_r, Nat.sub_diag. }
  rewrite Hv. simpl.
  rewrite (bind_ok _ _ _ _ _ Hcopy).
  destruct (find _ (attrs ad)) as [[n0 c0]|] eqn:Hfa.
  - destruct Hcf as (i & u & Hi & Hfl & Hu & Hu'). exists i, u.
    split; [done|]. split; [done|].
    assert (Hattr : getattr new attr_name σ1 = (Ok (length (cells σ) + i, []), σ1)).
    { unfold getattr. by rewrite Hnew; simpl; rewrite Hfl. }
    rewrite (bind_ok _ _ _ _ _ Hattr).
    pose proof (reduce_getitem_spec ks (length (cells σ) + i) [] u u σ1 Hu' eq_refl)
      as Hred.
    destruct (tree_get ks u) as [sub|e] eqn:Hsub.
    + rewrite (bind_ok _ _ _ _ _ Hred). simpl.
      unfold plain_at, bind, read, ret. simpl. by rewrite Hu', Hsub.
    + by rewrite (bind_raise _ _ _ _ _ Hred).
  - assert (Hattr : getattr new attr_name σ1 = (Raise AttributeError, σ1)).
    { unfold getattr. by rewrite Hnew; simpl; rewrite Hcf. }
    by rewrite (bind_raise _ _ _ _ _ Hattr).
Qed.

(** An assignment on a view whose descriptor does not resolve on the
    copy of the root fails after the warning and the copy and before any
    write: with [AttributeError] when the root has no attribute of that
    name, and with the error of the first container, on the way along the
    keys, that lacks its key.  The copy stays behind unused; the root is
    not touched. *)
Theorem setitem_structural_mismatch (self : pyobj) (ref : ElementRef) (idx : key)
    (value : tree) (σ : store) (ad : anndata) (cs' : list tree)
    (l' : list (string * loc)) :
  _view_args self = Some ref →
  adatas σ !! parent ref = Some ad →
  copy_attrs (cells σ) (attrs ad) = Ok (cs', l') →
  let σ1 := Store cs' (adatas σ ++ [AnnData l' None])
                  (trace σ ++ [Warned "ImplicitModificationWarning"
                                      (modification_message (attrname ref));
                               Copied (parent ref) (length (adatas σ))]) in
  (find (λ nc, bool_decide (nc.1 = attrname ref)) (attrs ad) = None →
   __setitem__ self idx value σ = (Raise AttributeError, σ1))
  ∧ (∀ c0 u e,
       find (λ nc, bool_decide (nc.1 = attrname ref)) (attrs ad)
       = Some (attrname ref, c0) →
       cells σ !! c0 = Some u → tree_get (keys ref) u = Raise e →
       __setitem__ self idx value σ = (Raise e, σ1)).
Proof.
  intros Hv Had Hc σ1.
  set (σw := Store (cells σ) (adatas σ)
               (trace σ ++ [Warned "ImplicitModificationWarning"
                                   (modification_message (attrname ref))])).
  assert (Hset : __setitem__ self idx value σ
                 = with_ (_update self) (λ c, native_setitem c idx value) σw).
  { unfold __setitem__. by rewrite Hv. }
  pose proof (_update_enter_run self ref σw ad cs' l' Hv Had Hc) as Hrun.
  simpl in Hrun. rewrite <- app_assoc in Hrun. simpl in Hrun. fold σ1 in Hrun.
  split.
  - intros Hnone. rewrite Hnone in Hrun. rewrite Hset. unfold with_.
    by rewrite (bind_raise _ _ _ _ _ Hrun).
  - intros c0 u e Hfind Hu Hget. rewrite Hfind in Hrun.
    destruct Hrun as (i & u' & Hi & Hu' & Hrun).
    change (cells σw) with (cells σ) in Hu'. rewrite Hu in Hu'. injection Hu' as <-.
    rewrite Hget in Hrun. rewrite Hset. unfold with_.
    by rewrite (bind_raise _ _ _ _ _ Hrun).
Qed.

Lemma setitem_structural_mismatch_witness :
  __setitem__ (PyObj ArrayView (1, [KStr "umap"])
                 (Some (MkElementRef 1 "obsm" [KStr "umap"])))
    (KInt 0) (Leaf 9) example_store
  = (Raise KeyError,
     Store (cells example_store ++ cells example_store)
           (adatas example_store
              ++ [AnnData [("X", 3); ("obsm", 4); ("obs", 5)] None])
           [Warned "ImplicitModificationWarning" (modification_message "obsm");
            Copied 1 2]).
Proof.
  exact (proj2 (setitem_structural_mismatch
                  (PyObj ArrayView (1, [KStr "umap"])
                     (Some (MkElementRef 1 "obsm" [KStr "umap"])))
                  (MkElementRef 1 "obsm" [KStr "umap"]) (KInt 0) (Leaf 9)
                  example_store
                  (AnnData [("X", 0); ("obsm", 1); ("obs", 2)] (Some 0))
                  (cells example_store ++ cells example_store)
                  [("X", 3); ("obsm", 4); ("obs", 5)]
                  eq_refl eq_refl eq_refl)
               1 (Node dict [(KStr "pca", Node ndarray [(KInt 0, Leaf 5)])])
               KeyError eq_refl eq_refl eq_refl).
Defined.

(** *** Without a descriptor *)

(** Only [__setitem__] checks for a missing descriptor.  On an object of
    a view class without descriptor, [drop] in place and the deep copy of
    the [_ViewMixin] classes raise [TypeError], as does every use of the
    scope, and leave the store alone; the item assignment writes to the
    object's own storage: what it holds under [idx] afterwards is the
    value, and nothing is recorded. *)
Theorem no_descriptor_behaviour (self : pyobj) (σ : store) :
  _view_args self = None →
  (∀ labels, drop self labels true σ = (Raise TypeError, σ))
  ∧ (resolve (cls self) "__deepcopy__" = Some _ViewMixin →
     deepcopy self σ = (Raise TypeError, σ))
  ∧ (∀ A (body : pyobj → M A), with_ (_update self) body σ = (Raise TypeError, σ))
  ∧ (∀ idx value σ',
       __setitem__ self idx value σ = (Ok tt, σ') →
       (read ((data self).1, (data self).2 ++ [idx]) σ').1 = Ok value
       ∧ adatas σ' = adatas σ ∧ trace σ' = trace σ).
Proof.
  intros Hv.
  assert (Hwith : ∀ A (body : pyobj → M A),
             with_ (_update self) body σ = (Raise TypeError, σ)).
  { intros A body. unfold with_, bind. simpl. by rewrite Hv. }
  split; [|split; [|split]].
  - intros labels. unfold drop. simpl. apply Hwith.
  - intros Hres. unfold deepcopy. rewrite Hres.
    unfold _ViewMixin___deepcopy__. by rewrite Hv.
  - exact Hwith.
  - intros idx value σ'. unfold __setitem__. rewrite Hv.
    intros (t & t' & Ht & Hup & ->)%cell_update_ok. simpl.
    split; [|done]. unfold read. simpl.
    rewrite list_lookup_insert_eq by (by apply lookup_lt_Some in Ht). simpl.
    by destruct (tree_setitem_read _ _ _ _ _ Hup).
Qed.

Lemma no_descriptor_behaviour_witness :
  drop (PyObj DataFrameView (2, []) None) [KStr "a"] true example_store
  = (Raise TypeError, example_store).
Proof.
  exact (proj1 (no_descriptor_behaviour (PyObj DataFrameView (2, []) None)
                  example_store eq_refl) [KStr "a"]).
Defined.

(** *** Dropping from a table view *)

(** An operation at the end of [p], seen from the container [p] leads
    to. *)
Lemma tree_update_at p f : ∀ t v,
  tree_get p t = Ok v →
  match f v with
  | Ok v' => ∃ t', tree_update p f t = Ok t' ∧ tree_get p t' = Ok v'
  | Raise e => tree_update p f t = Raise e
  end.
Proof.
  induction p as [|k p IH]; intros t v; simpl.
  - intros [= ->]. destruct (f v) as [v'|e]; [by exists v'|done].
  - destruct t as [z|c kids]; [done|]. simpl.
    destruct (kids_lookup k kids) as [t0|] eqn:Hk; [|done]. simpl.
    intros Hv. specialize (IH _ _ Hv).
    destruct (f v) as [v'|e].
    + destruct IH as (t0' & -> & Hg). simpl. eexists. split; [done|]. simpl.
      by rewrite kids_lookup_replace_eq by (by rewrite Hk).
    + by rewrite IH.
Qed.

(** A scoped in-place operation [f], run from a store in which the
    descriptor resolves: the root is copied, the attribute of the copy is
    bound to a new cell [c1] with the contents of the root's, the keys are
    followed inside that cell and the container they lead to is yielded;
    [f] runs on it, and when it returns the root is bound to the cells of
    the copy. *)
Lemma with_update_run self ref f σ ad cs' l' c0 u v :
  _view_args self = Some ref →
  adatas σ !! parent ref = Some ad →
  copy_attrs (cells σ) (attrs ad) = Ok (cs', l') →
  find (λ nc, bool_decide (nc.1 = attrname ref)) (attrs ad)
  = Some (attrname ref, c0) →
  cells σ !! c0 = Some u →
  tree_get (keys ref) u = Ok v →
  let new := length (adatas σ) in
  let σ1 := Store cs' (adatas σ ++ [AnnData l' None])
                  (trace σ ++ [Copied (parent ref) new]) in
  ∃ c1,
    find (λ nc, bool_decide (nc.1 = attrname ref)) l' = Some (attrname ref, c1)
    ∧ length (cells σ) ≤ c1
    ∧ cs' !! c1 = Some u
    ∧ before_yield (_update self) σ
      = (Ok ((parent ref, new), PyObj (tree_class v) (c1, keys ref) None), σ1)
    ∧ match f v with
      | Ok v' =>
          ∃ u', tree_update (keys ref) f u = Ok u'
                ∧ tree_get (keys ref) u' = Ok v'
                ∧ with_ (_update self) (λ c, cell_update (data c) f) σ
                  = (Ok tt,
                     Store (<[c1 := u']> cs')
                           (<[parent ref := AnnData l' None]>
                              (adatas σ ++ [AnnData l' None]))
                           (trace σ ++ [Copied (parent ref) new;
                                        InitAsActual (parent ref) new]))
      | Raise e =>
          with_ (_update self) (λ c, cell_update (data c) f) σ = (Raise e, σ1)
      end.
Proof.
  intros Hv Had Hc Hfa Hu Hg new σ1.
  pose proof (copy_attrs_find _ _ _ _ (attrname ref) Hc) as Hcf.
  rewrite Hfa in Hcf. destruct Hcf as (i & u1 & Hi & Hfl & Hu1 & Hu').
  rewrite Hu in Hu1. injection Hu1 as <-.
  exists (length (cells σ) + i). split; [done|]. split; [lia|]. split; [done|].
  pose proof (AnnData_copy_run _ _ _ _ _ Had Hc) as Hcopy. fold new σ1 in Hcopy.
  assert (Hroot : adatas σ1 !! parent ref = Some ad).
  { unfold σ1. simpl. by apply lookup_app_l_Some. }
  assert (Hnew : adatas σ1 !! new = Some (AnnData l' None)).
  { unfold σ1, new. simpl. by rewrite lookup_app_r, Nat.sub_diag. }
  assert (Hattr : getattr new (attrname ref) σ1
                  = (Ok (length (cells σ) + i, []), σ1)).
  { unfold getattr. by rewrite Hnew; simpl; rewrite Hfl. }
  pose proof (reduce_getitem_spec (keys ref) (length (cells σ) + i) [] u u σ1
                Hu' eq_refl) as Hred.
  rewrite Hg in Hred. simpl in Hred.
  assert (Henter : before_yield (_update self) σ
                   = (Ok ((parent ref, new),
                          PyObj (tree_class v)
                                (length (cells σ) + i, keys ref) None), σ1)).
  { destruct ref as [adata_view attr_name ks]. simpl in *. rewrite Hv.
    rewrite (bind_ok _ _ _ _ _ Hcopy), (bind_ok _ _ _ _ _ Hattr),
      (bind_ok _ _ _ _ _ Hred).
    unfold plain_at, bind, read, ret. simpl. by rewrite Hu', Hg. }
  split; [done|].
  pose proof (tree_update_at (keys ref) f u v Hg) as Hup.
  unfold with_. rewrite (bind_ok _ _ _ _ _ Henter).
  unfold cell_update. simpl. rewrite Hu'.
  destruct (f v) as [v'|e].
  - destruct Hup as (u' & Hup & Hg'). exists u'.
    split; [done|]. split; [done|]. rewrite Hup.
    unfold bind. erewrite _init_as_actual_ok; [|exact Hroot|exact Hnew].
    unfold ret. simpl. by rewrite <- app_assoc.
  - by rewrite Hup.
Qed.

(** C7. On a table view, [drop] with [inplace=False] copies the view to
    a plain table and drops from that: no warning, no copy or commit of
    the root, no existing cell written, and the result is a new plain
    table on a cell of its own.  With [inplace=True] the drop is the body
    of the scope an item assignment runs its write in, and from a store in
    which the descriptor resolves it goes the four steps of that scope:
    the root is copied, so that the attribute of the copy is bound to a
    new cell holding what the root's attribute holds; the keys of the
    descriptor are followed inside that cell, and the table they lead to
    is yielded; the labels are dropped in place from that table; the root
    is bound to the cells of the copy and is no view any more.  A drop
    that raises leaves the scope before the commit. *)
Theorem drop_semantics (self : pyobj) (labels : list key) (σ : store) :
  cls self = DataFrameView →
  (adatas (drop self labels false σ).2 = adatas σ
   ∧ trace (drop self labels false σ).2 = trace σ
   ∧ preserved (cells σ) (cells (drop self labels false σ).2)
   ∧ ∀ t t', (read (data self) σ).1 = Ok t → node_drop labels t = Ok t' →
             drop self labels false σ
             = (Ok (Some (PyObj DataFrame (S (length (cells σ)), []) None)),
                Store (cells σ ++ [t; t']) (adatas σ) (trace σ)))
  ∧ (drop self labels true σ
     = with_ (_update self) (λ df, DataFrame_drop df labels true) σ
     ∧ ∀ ref ad cs' l' c0 u table,
         _view_args self = Some ref →
         adatas σ !! parent ref = Some ad →
         copy_attrs (cells σ) (attrs ad) = Ok (cs', l') →
         find (λ nc, bool_decide (nc.1 = attrname ref)) (attrs ad)
         = Some (attrname ref, c0) →
         cells σ !! c0 = Some u →
         tree_get (keys ref) u = Ok table →
         let new := length (adatas σ) in
         let σ1 := Store cs' (adatas σ ++ [AnnData l' None])
                         (trace σ ++ [Copied (parent ref) new]) in
         (∀ idx value,
            __setitem__ self idx value σ
            = (let* _ := warn "ImplicitModificationWarning"
                              (modification_message (attrname ref)) in
               with_ (_update self)
                     (λ container, native_setitem container idx value)) σ)
         ∧ ∃ c1,
             find (λ nc, bool_decide (nc.1 = attrname ref)) l'
             = Some (attrname ref, c1)
             ∧ length (cells σ) ≤ c1
             ∧ cs' !! c1 = Some u
             ∧ before_yield (_update self) σ
               = (Ok ((parent ref, new),
                      PyObj (tree_class table) (c1, keys ref) None), σ1)
             ∧ match node_drop labels table with
               | Ok table' =>
                   ∃ u', tree_update (keys ref) (node_drop labels) u = Ok u'
                         ∧ tree_get (keys ref) u' = Ok table'
                         ∧ drop self labels true σ
                           = (Ok None,
                              Store (<[c1 := u']> cs')
                                    (<[parent ref := AnnData l' None]>
                                       (adatas σ ++ [AnnData l' None]))
                                    (trace σ ++ [Copied (parent ref) new;
                                                 InitAsActual (parent ref) new]))
               | Raise e => drop self labels true σ = (Raise e, σ1)
               end).
Proof.
  intros Hcls. split.
  - assert (Hd : drop self labels false σ
                 = (let* c := fresh_copy DataFrame self in
                    DataFrame_drop c labels false) σ).
    { unfold drop, copy. by rewrite Hcls. }
    rewrite Hd.
    destruct ((let* c := fresh_copy DataFrame self in
               DataFrame_drop c labels false) σ) as [r σ'] eqn:Hrun.
    pose proof Hrun as (Ha & Ht & ext & Hc)%allocating_bind;
      [|apply allocating_fresh_copy|intros c; apply allocating_DataFrame_drop].
    simpl. split; [done|]. split; [done|].
    split; [rewrite Hc; apply preserved_app|].
    intros t t' Hread Hdrop. rewrite <- Hrun.
    rewrite (bind_ok _ _ _ _ _ (fresh_copy_ok DataFrame self σ t Hread)).
    unfold DataFrame_drop, bind, read, lift, alloc, ret; simpl.
    rewrite lookup_app_r, Nat.sub_diag by done. simpl. rewrite Hdrop.
    rewrite length_app, Nat.add_1_r, <- app_assoc. done.
  - split; [done|].
    intros ref ad cs' l' c0 u table Hv Had Hc Hfa Hu Hg new σ1.
    split; [intros idx value; unfold __setitem__; by rewrite Hv|].
    destruct (with_update_run self ref (node_drop labels) σ ad cs' l' c0 u table
                Hv Had Hc Hfa Hu Hg)
      as (c1 & Hfl & Hfresh & Hu' & Henter & Hrun).
    exists c1. repeat (split; [done|]).
    unfold drop, DataFrame_drop. simpl. rewrite with_then_ret.
    destruct (node_drop labels table) as [table'|e].
    + destruct Hrun as (u' & Hup & Hg' & ->). by exists u'.
    + by rewrite Hrun.
Qed.

Lemma drop_semantics_witness :
  drop example_nested_table_view [KStr "a"] false example_nested_store
  = (Ok (Some (PyObj DataFrame (2, []) None)),
     Store (cells example_nested_store
              ++ [Node DataFrame [(KStr "a", Leaf 3); (KStr "b", Leaf 4)];
                  Node DataFrame [(KStr "b", Leaf 4)]])
           (adatas example_nested_store) (trace example_nested_store))
  ∧ before_yield (_update example_nested_table_view) example_nested_store
    = (Ok ((1, 2), PyObj DataFrame (1, [KStr "df"]) None),
       Store (cells example_nested_store ++ cells example_nested_store)
             [AnnData [("obsm", 0)] None; AnnData [("obsm", 0)] (Some 0);
              AnnData [("obsm", 1)] None]
             [Copied 1 2])
  ∧ drop example_nested_table_view [KStr "a"] true example_nested_store
    = (Ok None,
       Store (cells example_nested_store
                ++ [Node dict [(KStr "df", Node DataFrame [(KStr "b", Leaf 4)])]])
             [AnnData [("obsm", 0)] None; AnnData [("obsm", 1)] None;
              AnnData [("obsm", 1)] None]
             [Copied 1 2; InitAsActual 1 2]).
Proof.
  destruct (drop_semantics example_nested_table_view [KStr "a"]
              example_nested_store eq_refl) as [(_ & _ & _ & Hcopy) (_ & Hin)].
  split; [exact (Hcopy _ _ eq_refl eq_refl)|].
  destruct (Hin (MkElementRef 1 "obsm" [KStr "df"])
              (AnnData [("obsm", 0)] (Some 0))
              (cells example_nested_store ++ cells example_nested_store)
              [("obsm", 1)] 0
              (Node dict [(KStr "df", Node DataFrame [(KStr "a", Leaf 3);
                                                      (KStr "b", Leaf 4)])])
              (Node DataFrame [(KStr "a", Leaf 3); (KStr "b", Leaf 4)])
              eq_refl eq_refl eq_refl eq_refl eq_refl eq_refl)
    as (_ & c1 & Hfl & _ & _ & Henter & Hrun).
  injection Hfl as <-. split; [exact Henter|].
  destruct Hrun as (u' & Hup & _ & Hdrop). injection Hup as <-. exact Hdrop.
Defined.


(** *** What the root shows after a drop in place *)

Lemma node_drop_getitem labels u u' k :
  node_drop labels u = Ok u' →
  tree_getitem k u'
  = if decide (k ∈ labels) then Raise (missing_key (tree_class u))
    else tree_getitem k u.
Proof.
  destruct u as [z|c kids]; [done|]. simpl.
  destruct (forallb _ labels); [|done]. intros [= <-]. simpl.
  rewrite kids_lookup_filter. by destruct (decide (k ∈ labels)).
Qed.

Lemma node_drop_present labels u u' k :
  node_drop labels u = Ok u' → k ∈ labels → ∃ t, tree_getitem k u = Ok t.
Proof.
  destruct u as [z|c kids]; [done|]. simpl.
  destruct (forallb _ labels) eqn:Hall; [|done]. intros _ Hk.
  rewrite forallb_forall in Hall. apply list_elem_of_In in Hk.
  apply Hall, bool_decide_eq_true in Hk as [t Ht]. exists t. by rewrite Ht.
Qed.

(** A drop in place on a table view that returns gives [None] and is
    visible through the root: every dropped label was there before and is
    gone from the table the keys of the descriptor lead to, every other
    entry of that table reads as before, and so does every other
    attribute of the root, which is no view any more. *)
Theorem drop_inplace_through_root (self : pyobj) (ref : ElementRef)
    (labels : list key) (σ σ' : store) (r : option pyobj) :
  _view_args self = Some ref →
  drop self labels true σ = (Ok r, σ') →
  r = None
  ∧ (∃ ad', adatas σ' !! parent ref = Some ad' ∧ _adata_ref ad' = None)
  ∧ (∀ k, k ∈ labels →
       (∃ t, (observe (parent ref) (attrname ref) (keys ref ++ [k]) σ).1 = Ok t)
       ∧ ∃ e, (observe (parent ref) (attrname ref) (keys ref ++ [k]) σ').1
              = Raise e)
  ∧ (∀ k p, k ∉ labels →
       (observe (parent ref) (attrname ref) (keys ref ++ k :: p) σ').1
       = (observe (parent ref) (attrname ref) (keys ref ++ k :: p) σ).1)
  ∧ (∀ name p, name ≠ attrname ref →
       (observe (parent ref) name p σ').1 = (observe (parent ref) name p σ).1).
Proof.
  intros Hv. unfold drop, DataFrame_drop. simpl. rewrite with_then_ret.
  destruct (with_ (_update self) _ σ) as [[[]|e0] σ0] eqn:Hwith; [|done].
  intros [= <- <-]. split; [done|].
  pose proof (λ name p, with_update_other_attribute self ref _ _ _ name p Hv Hwith)
    as Hother.
  destruct (with_update_success _ _ _ _ _ Hv Hwith)
    as (ad & ts & l' & i & c0 & u & t' & Had & Hc & Hi & Hfa & Hfl & Hu & Hu' & Hup & ->).
  assert (Hroot : <[parent ref := AnnData l' None]>
                    (adatas σ ++ [AnnData l' None]) !! parent ref
                  = Some (AnnData l' None)).
  { by eapply lookup_insert_app_root. }
  assert (Hcell : <[length (cells σ) + i := t']> (cells σ ++ ts)
                    !! (length (cells σ) + i) = Some t').
  { apply list_lookup_insert_eq. by apply lookup_lt_Some in Hu'. }
  assert (Hnew : ∀ q, (observe (parent ref) (attrname ref) q
                         (Store (<[length (cells σ) + i := t']> (cells σ ++ ts))
                            (<[parent ref := AnnData l' None]>
                               (adatas σ ++ [AnnData l' None]))
                            (trace σ ++ [Copied (parent ref) (length (adatas σ));
                                         InitAsActual (parent ref)
                                                      (length (adatas σ))]))).1
                      = tree_get q t').
  { intros q. by erewrite observe_eq. }
  assert (Hold : ∀ q, (observe (parent ref) (attrname ref) q σ).1 = tree_get q u).
  { intros q. by erewrite observe_eq. }
  destruct (tree_update_ok _ _ _ _ Hup) as (v & v' & Hgv & Hdrop & Hgv').
  split; [by eexists|]. split; [|split].
  - intros k Hk. rewrite Hold, Hnew, !tree_get_app, Hgv, Hgv'. simpl.
    rewrite (node_drop_getitem _ _ _ k Hdrop), decide_True by done. simpl.
    destruct (node_drop_present _ _ _ k Hdrop Hk) as [t ->]. simpl.
    split; by eexists.
  - intros k p Hk. rewrite Hold, Hnew, !tree_get_app, Hgv, Hgv'. simpl.
    by rewrite (node_drop_getitem _ _ _ k Hdrop), decide_False by done.
  - intros name p Hname. by apply Hother.
Qed.

Lemma drop_inplace_through_root_witness :
  (∃ e, (observe 1 "obs" [KStr "a"]
           (drop example_table_view [KStr "a"] true example_store).2).1 = Raise e)
  ∧ (observe 1 "obs" [KStr "b"]
       (drop example_table_view [KStr "a"] true example_store).2).1
    = Ok (Leaf 4).
Proof.
  destruct (drop_inplace_through_root example_table_view
              (MkElementRef 1 "obs" []) [KStr "a"] example_store _ None
              eq_refl eq_refl) as (_ & _ & Hgone & Hkept & _).
  split.
  - exact (proj2 (Hgone (KStr "a") ltac:(by left))).
  - exact (Hkept (KStr "b") [] ltac:(by intros [=]%list_elem_of_singleton)).
Defined.

(** *** Views built by the registry *)

Lemma dispatch_cases c :
  dispatch c ∈ [ndarray; DataFrame; csr_matrix; csc_matrix; dict] →
  dispatch c = ndarray ∨ dispatch c = DataFrame ∨ dispatch c = csr_matrix
  ∨ dispatch c = csc_matrix ∨ dispatch c = dict.
Proof.
  intros H. repeat (apply elem_of_cons in H as [H|H]; [tauto|]).
  by apply elem_of_nil in H.
Qed.

(** [as_view] on an object with a registered container class gives an
    object of the view class of that container, with the descriptor built
    from [view_args], which shows, when it is built, the contents of the
    object.  The object goes on showing what it showed, no existing cell
    is written, no AnnData object is touched and nothing is recorded.
    The view of an array is the same memory under another class. *)
Theorem as_view_wraps (obj : pyobj) (view_args : option view_args_tuple)
    (σ : store) (t : tree) :
  dispatch (cls obj) ∈ [ndarray; DataFrame; csr_matrix; csc_matrix; dict] →
  (read (data obj) σ).1 = Ok t →
  ∃ v σ', as_view obj view_args σ = (Ok v, σ')
          ∧ cls v = match dispatch (cls obj) with
                    | ndarray => ArrayView
                    | DataFrame => DataFrameView
                    | csr_matrix => SparseCSRView
                    | csc_matrix => SparseCSCView
                    | _ => DictView
                    end
          ∧ is_view_class (cls v) = true
          ∧ native (cls v) = Some (dispatch (cls obj))
          ∧ _view_args v = to_ElementRef <$> view_args
          ∧ (read (data v) σ').1 = Ok t
          ∧ (read (data obj) σ').1 = Ok t
          ∧ adatas σ' = adatas σ ∧ trace σ' = trace σ
          ∧ preserved (cells σ) (cells σ')
          ∧ (dispatch (cls obj) = ndarray → σ' = σ ∧ data v = data obj).
Proof.
  intros Hd Hread. pose proof (read_ok _ _ _ Hread) as Hr.
  apply dispatch_cases in Hd as [Hd|[Hd|[Hd|[Hd|Hd]]]];
    unfold as_view; rewrite Hd; simpl.
  1-4: eexists _, σ; split; [reflexivity|];
       repeat (split; [done|]); split; [apply preserved_refl|done].
  - unfold view_init. simpl. rewrite (bind_ok _ _ _ _ _ Hr).
    eexists _, _. split; [reflexivity|]. simpl.
    repeat (split; [done|]).
    split; [unfold read; simpl; by rewrite lookup_app_r, Nat.sub_diag|].
    split.
    { apply (read_preserved _ σ); [apply preserved_app|done]. }
    repeat (split; [done|]). split; [apply preserved_app|done].
Qed.

Lemma as_view_wraps_witness :
  ∃ v σ', as_view (PyObj ndarray (0, []) None) (Some (1, "X", [])) example_store
          = (Ok v, σ')
          ∧ cls v = ArrayView ∧ data v = (0, []) ∧ σ' = example_store.
Proof.
  destruct (as_view_wraps (PyObj ndarray (0, []) None) (Some (1, "X", []))
              example_store (Node ndarray [(KInt 0, Leaf 1); (KInt 1, Leaf 2)])
              ltac:(by left) eq_refl)
    as (v & σ' & Hv & Hc & _ & _ & _ & _ & _ & _ & _ & _ & Hs).
  exists v, σ'. split; [exact Hv|]. split; [exact Hc|].
  destruct (Hs eq_refl) as [Hσ Hd]. by split.
Defined.

(** The copy of a view built by [as_view] is a plain object of the
    registered container class, without descriptor, that shows the
    contents of the wrapped object; making it writes no existing cell,
    touches no AnnData object and records nothing.  For an array, a table
    and a sparse matrix the copy is on a cell of its own that holds those
    contents: wrapping and copying gives back the container, detached. *)
Theorem as_view_then_copy (obj : pyobj) (view_args : option view_args_tuple)
    (σ σ1 : store) (t : tree) (v : pyobj) :
  dispatch (cls obj) ∈ [ndarray; DataFrame; csr_matrix; csc_matrix; dict] →
  (read (data obj) σ).1 = Ok t →
  as_view obj view_args σ = (Ok v, σ1) →
  ∃ o σ2,
    copy v σ1 = (Ok o, σ2)
    ∧ cls o = dispatch (cls obj)
    ∧ _view_args o = None
    ∧ (read (data o) σ2).1 = Ok t
    ∧ adatas σ2 = adatas σ1 ∧ trace σ2 = trace σ1
    ∧ preserved (cells σ1) (cells σ2)
    ∧ (dispatch (cls obj) ≠ dict →
       data o = (length (cells σ1), [])
       ∧ σ2 = Store (cells σ1 ++ [t]) (adatas σ1) (trace σ1)).
Proof.
  intros Hd Hread Hview. pose proof (read_ok _ _ _ Hread) as Hr.
  assert (Hcopy : copy v σ1
                  = (Ok (PyObj (dispatch (cls obj)) (length (cells σ1), []) None),
                     Store (cells σ1 ++ [t]) (adatas σ1) (trace σ1))).
  { apply dispatch_cases in Hd as [Hd|[Hd|[Hd|[Hd|Hd]]]];
      unfold as_view in Hview; rewrite Hd in *; simpl in Hview.
    - injection Hview as <- <-. unfold copy, ArrayView_copy. simpl.
      by apply (fresh_copy_ok ndarray).
    - injection Hview as <- <-. unfold copy. simpl.
      by apply (fresh_copy_ok DataFrame).
    - injection Hview as <- <-. unfold copy, SparseCSRView_copy. simpl.
      by apply (fresh_copy_ok csr_matrix).
    - injection Hview as <- <-. unfold copy, SparseCSCView_copy. simpl.
      by apply (fresh_copy_ok csc_matrix).
    - unfold view_init in Hview. simpl in Hview.
      rewrite (bind_ok _ _ _ _ _ Hr) in Hview. injection Hview as <- <-.
      unfold copy. simpl.
      apply (fresh_copy_ok dict _ (Store (cells σ ++ [t]) (adatas σ) (trace σ)) t).
      unfold read. simpl. by rewrite lookup_app_r, Nat.sub_diag. }
  eexists _, _. split; [exact Hcopy|]. simpl.
  repeat (split; [done|]).
  split; [unfold read; simpl; by rewrite lookup_app_r, Nat.sub_diag|].
  repeat (split; [done|]). split; [apply preserved_app|done].
Qed.

Lemma as_view_then_copy_witness :
  ∃ o σ2,
    copy (PyObj DataFrameView (2, []) (Some (MkElementRef 1 "obs" [])))
         example_store = (Ok o, σ2)
    ∧ cls o = DataFrame ∧ _view_args o = None
    ∧ (read (data o) σ2).1
      = Ok (Node DataFrame [(KStr "a", Leaf 3); (KStr "b", Leaf 4)]).
Proof.
  destruct (as_view_then_copy (PyObj DataFrame (2, []) None) (Some (1, "obs", []))
              example_store example_store
              (Node DataFrame [(KStr "a", Leaf 3); (KStr "b", Leaf 4)])
              (PyObj DataFrameView (2, []) (Some (MkElementRef 1 "obs" [])))
              ltac:(by right; left) eq_refl eq_refl)
    as (o & σ2 & Hcopy & Hc & Hn & Hr & _).
  by exists o, σ2.
Defined.

(** Every run of the scope, returning or raising, leaves the existing
    cells as they were. *)
Lemma with_update_cells self f σ r σ' :
  with_ (_update self) (λ c, cell_update (data c) f) σ = (r, σ') →
  preserved (cells σ) (cells σ').
Proof.
  destruct r as [[]|e]; [|by intros (? & _)%with_update_raise].
  destruct (_view_args self) as [ref|] eqn:Hv.
  - intros (ad & ts & l' & i & c0 & u & t' & _ & _ & _ & _ & _ & _ & _ & _ & ->)
      %(with_update_success _ ref); [|done]. simpl.
    eapply (preserved_outside _ _ _ (length (cells σ) + i));
      [apply preserved_app | lia |].
    intros j Hj. by apply list_lookup_insert_ne.
  - unfold with_, bind. simpl. by rewrite Hv.
Qed.

(** The descriptor is what protects the wrapped object.  An assignment
    on a view built with a descriptor, whatever its outcome, writes no
    cell that existed, so the wrapped object shows what it showed.  A view
    of an array built without descriptor is the memory of the array and
    writes through: after an assignment that returns, the wrapped array
    itself holds the value. *)
Theorem as_view_descriptor_protects (obj v : pyobj)
    (view_args : option view_args_tuple) (idx : key) (value : tree)
    (σ σ1 σ2 : store) (r : result unit) :
  dispatch (cls obj) ∈ [ndarray; DataFrame; csr_matrix; csc_matrix; dict] →
  as_view obj view_args σ = (Ok v, σ1) →
  __setitem__ v idx value σ1 = (r, σ2) →
  match view_args with
  | Some _ =>
      preserved (cells σ) (cells σ2)
      ∧ ∀ t, (read (data obj) σ).1 = Ok t → (read (data obj) σ2).1 = Ok t
  | None =>
      dispatch (cls obj) = ndarray → r = Ok tt →
      (read ((data obj).1, (data obj).2 ++ [idx]) σ2).1 = Ok value
  end.
Proof.
  intros Hd Hview Hset.
  assert (Hv : _view_args v = to_ElementRef <$> view_args
               ∧ preserved (cells σ) (cells σ1)
               ∧ (dispatch (cls obj) = ndarray → data v = data obj ∧ σ1 = σ)).
  { apply dispatch_cases in Hd as [Hd|[Hd|[Hd|[Hd|Hd]]]];
      unfold as_view in Hview; rewrite Hd in *; simpl in Hview.
    1-4: injection Hview as <- <-; split; [done|];
         split; [apply preserved_refl|done].
    unfold view_init in Hview. simpl in Hview.
    apply bind_inv in Hview as [(t & σa & Hr & H)|(e & _ & ?)]; [|done].
    apply pure_read in Hr as ->. injection H as <- <-. simpl.
    split; [done|]. split; [apply preserved_app|done]. }
  destruct Hv as (Hva & Hp1 & Hshare).
  destruct view_args as [va|]; simpl in Hva.
  - assert (Hp : preserved (cells σ) (cells σ2)).
    { unfold __setitem__ in Hset. rewrite Hva in Hset.
      apply bind_inv in Hset as [(u0 & σw & Hw & Hwith)|(e & Hw & _)]; [|done].
      injection Hw as _ <-. apply with_update_cells in Hwith.
      by eapply preserved_trans. }
    split; [done|]. intros t. by apply read_preserved.
  - intros Hnd ->. destruct (Hshare Hnd) as [Hdata ->].
    unfold __setitem__ in Hset. rewrite Hva in Hset.
    apply cell_update_ok in Hset as (t & t' & Ht & Hup & ->).
    rewrite Hdata in *. unfold read. simpl.
    rewrite list_lookup_insert_eq by (by apply lookup_lt_Some in Ht). simpl.
    by destruct (tree_setitem_read _ _ _ _ _ Hup).
Qed.

Lemma as_view_descriptor_protects_witness :
  (read ((0, []) : cursor)
     (__setitem__ (PyObj ArrayView (0, []) (Some (MkElementRef 1 "X" [])))
        (KInt 0) (Leaf 9) example_store).2).1
  = Ok (Node ndarray [(KInt 0, Leaf 1); (KInt 1, Leaf 2)])
  ∧ (read ((0, [KInt 0]) : cursor)
       (__setitem__ (PyObj ArrayView (0, []) None)
          (KInt 0) (Leaf 9) example_store).2).1
    = Ok (Leaf 9).
Proof.
  split.
  - exact (proj2 (as_view_descriptor_protects (PyObj ndarray (0, []) None)
             (PyObj ArrayView (0, []) (Some (MkElementRef 1 "X" [])))
             (Some (1, "X", [])) (KInt 0) (Leaf 9) example_store example_store
             _ (Ok tt) ltac:(by left) eq_refl eq_refl) _ eq_refl).
  - exact (as_view_descriptor_protects (PyObj ndarray (0, []) None)
             (PyObj ArrayView (0, []) None)
             None (KInt 0) (Leaf 9) example_store example_store
             _ (Ok tt) ltac:(by left) eq_refl eq_refl
             eq_refl eq_refl).
Defined.

(** *** Deep copies and the descriptor *)

(** The deep copy of a [_ViewMixin] view looks at the root and the
    attribute name of its descriptor only: two such views of the same
    attribute of the same root have the same deep copy, whatever their
    keys, their classes and their own data. *)
Theorem deepcopy_ignores_keys (v1 v2 : pyobj) (ref1 ref2 : ElementRef)
    (σ : store) :
  resolve (cls v1) "__deepcopy__" = Some _ViewMixin →
  resolve (cls v2) "__deepcopy__" = Some _ViewMixin →
  _view_args v1 = Some ref1 → _view_args v2 = Some ref2 →
  parent ref1 = parent ref2 → attrname ref1 = attrname ref2 →
  deepcopy v1 σ = deepcopy v2 σ.
Proof.
  intros H1 H2 Hv1 Hv2 Hp Ha. unfold deepcopy. rewrite H1, H2.
  unfold _ViewMixin___deepcopy__. rewrite Hv1, Hv2.
  destruct ref1 as [p1 a1 k1], ref2 as [p2 a2 k2]. simpl in *. by subst.
Qed.

Lemma deepcopy_ignores_keys_witness :
  deepcopy (PyObj SparseCSRView (0, []) (Some (MkElementRef 1 "obsm" [KStr "pca"])))
           example_store
  = deepcopy example_dict_view example_store.
Proof.
  exact (deepcopy_ignores_keys
           (PyObj SparseCSRView (0, []) (Some (MkElementRef 1 "obsm" [KStr "pca"])))
           example_dict_view (MkElementRef 1 "obsm" [KStr "pca"])
           (MkElementRef 1 "obsm" []) example_store
           eq_refl eq_refl eq_refl eq_refl eq_refl eq_refl).
Defined.

(** Once an assignment through a view has materialized the root, the
    root is a view of nothing, and the deep copy of every [_ViewMixin]
    view that still names this root raises [AttributeError]: there is no
    original left to copy from. *)
Theorem deepcopy_after_materialization (self v : pyobj) (ref ref_v : ElementRef)
    (idx : key) (value : tree) (σ σ' : store) :
  _view_args self = Some ref →
  __setitem__ self idx value σ = (Ok tt, σ') →
  resolve (cls v) "__deepcopy__" = Some _ViewMixin →
  _view_args v = Some ref_v → parent ref_v = parent ref →
  deepcopy v σ' = (Raise AttributeError, σ').
Proof.
  intros Hv. unfold __setitem__. rewrite Hv.
  intros [(u0 & σw & Hw & Hwith)|(e & _ & ?)]%bind_inv; [|done].
  injection Hw as _ <-.
  destruct (with_update_success _ _ _ _ _ Hv Hwith)
    as (ad & ts & l' & i & c0 & u & t' & Had & _ & _ & _ & _ & _ & _ & _ & ->).
  intros Hres Hvv Hpar. unfold deepcopy. rewrite Hres.
  unfold _ViewMixin___deepcopy__. rewrite Hvv.
  destruct ref_v as [pv av kv]. simpl in *. subst pv.
  unfold bind. simpl.
  by rewrite (lookup_insert_app_root _ _ _ _ _ Had).
Qed.

Lemma deepcopy_after_materialization_witness :
  deepcopy example_dict_view
           (__setitem__ example_view (KInt 0) (Leaf 9) example_store).2
  = (Raise AttributeError,
     (__setitem__ example_view (KInt 0) (Leaf 9) example_store).2).
Proof.
  apply (deepcopy_after_materialization example_view example_dict_view
           example_ref (MkElementRef 1 "obsm" []) (KInt 0) (Leaf 9)
           example_store
           (__setitem__ example_view (KInt 0) (Leaf 9) example_store).2
           eq_refl); [by vm_compute | reflexivity | reflexivity | reflexivity].
Defined.

End CowMore.
